(** * ksense-assessment: resilient fetch-and-classify pipeline

    A shallow embedding of [src/index.ts] (field normaliser, risk scorer,
    retrying transport, pagination driver, alert-set construction) and the
    properties its specification states about it. *)

From Stdlib Require Import ZArith QArith Qround Lqa Lia Bool List Ascii String.
From Stdlib Require Import DecimalString Sorted Permutation.
Import ListNotations.

Set Warnings "-register-all".
Local Open Scope string_scope.
Local Open Scope Z_scope.

(** ** The JavaScript runtime values the program manipulates *)

Module JS.

(** A JS number is an IEEE-754 binary64 value.  Every finite double is a
    rational and the comparisons [<], [<=], [>=] of finite doubles are the
    exact comparisons of those rationals, so a finite number is carried as its
    rational value; [-0] and [+0] are not distinguished (no operation of the
    program tells them apart). *)
Inductive number : Type :=
| NaN
| PosInfinity
| NegInfinity
| Finite (q : Q).

(** Values as [JSON.parse] and property access produce them.  A string is
    its sequence of code units, here those below 256. *)
Inductive value : Type :=
| Undefined
| Null
| Bool (b : bool)
| Num (n : number)
| Str (s : string)
| Arr (items : list value)
| Obj (fields : list (string * value)).

(** [Number.isFinite] on a number, returning the finite payload. *)
Definition finite_part (n : number) : option Q :=
  match n with
  | Finite q => Some q
  | _ => None
  end.

(** ToBoolean. *)
Definition truthy (v : value) : bool :=
  match v with
  | Undefined | Null => false
  | Bool b => b
  | Num (Finite q) => negb (Qeq_bool q 0)
  | Num NaN => false
  | Num _ => true
  | Str s => negb (s =? "")%string
  | Arr _ | Obj _ => true
  end.

(** Own-property lookup in a parsed object: [o.k], [undefined] when absent. *)
Fixpoint lookup (k : string) (fields : list (string * value)) : value :=
  match fields with
  | [] => Undefined
  | (k', v) :: rest => if (k =? k')%string then v else lookup k rest
  end.

(** [k in o] for a parsed object. *)
Definition has_key (k : string) (fields : list (string * value)) : bool :=
  existsb (fun kv => (k =? fst kv)%string) fields.

(** *** Strings *)

(** The white space and line terminator code units below 256, which
    [String.prototype.trim] and [Number] strip: TAB, LF, VT, FF, CR, SP,
    NBSP. *)
Definition is_white (c : ascii) : bool :=
  let n := N_of_ascii c in
  ((9 <=? n) && (n <=? 13) || (n =? 32) || (n =? 160))%N.

Fixpoint trimStart (s : string) : string :=
  match s with
  | EmptyString => EmptyString
  | String c r => if is_white c then trimStart r else s
  end.

Fixpoint trimEnd (s : string) : string :=
  match s with
  | EmptyString => EmptyString
  | String c r =>
      let r' := trimEnd r in
      if is_white c && (r' =? "")%string then EmptyString else String c r'
  end.

Definition trim (s : string) : string := trimEnd (trimStart s).

(** [s.split(sep)] for a one-character separator: never the empty list. *)
Fixpoint split (sep : ascii) (s : string) : list string :=
  match s with
  | EmptyString => [EmptyString]
  | String c r =>
      if Ascii.eqb c sep then EmptyString :: split sep r
      else match split sep r with
           | h :: t => String c h :: t
           | [] => [String c EmptyString]
           end
  end.

(** *** Rounding a rational to the nearest binary64 value *)

(** Round to nearest, ties to even, with gradual underflow and overflow to
    infinity: the conversion [Number] applies to the mathematical value of a
    numeric literal. *)
Definition round64 (q : Q) : number :=
  let n := Qnum q in
  let d := Zpos (Qden q) in
  if n =? 0 then Finite 0 else
  let a := Z.abs n in
  let e0 := Z.log2 a - Z.log2 d in
  let ge := if 0 <=? e0 then d * 2 ^ e0 <=? a else d <=? a * 2 ^ (- e0) in
  let e := if ge then e0 else e0 - 1 in           (* 2^e <= a/d < 2^(e+1) *)
  let u := Z.max e (-1022) - 52 in                (* unit in the last place *)
  let num := if 0 <=? u then a else a * 2 ^ (- u) in
  let den := if 0 <=? u then d * 2 ^ u else d in
  let fl := num / den in
  let r := num mod den in
  let m := match 2 * r ?= den with
           | Lt => fl
           | Gt => fl + 1
           | Eq => if Z.even fl then fl else fl + 1
           end in
  if (1024 <=? e) || ((u =? 971) && (m =? 2 ^ 53)) then
    if n <? 0 then NegInfinity else PosInfinity
  else
    let sm := Z.sgn n * m in
    Finite (if 0 <=? u then inject_Z (sm * 2 ^ u)
            else Qred (Qmake sm (Z.to_pos (2 ^ (- u))))).

(** *** StringToNumber, the conversion [Number(s)] applies to a string *)

Definition digit_of (base : Z) (c : ascii) : option Z :=
  let n := Z.of_N (N_of_ascii c) in
  let v := if (48 <=? n) && (n <=? 57) then n - 48
           else if (97 <=? n) && (n <=? 102) then n - 87
           else if (65 <=? n) && (n <=? 70) then n - 55
           else 99 in
  if v <? base then Some v else None.

(** Longest prefix of digits in [base]: its value, its length, the rest. *)
Fixpoint take_digits (base : Z) (s : string) (acc : Z) (len : Z)
  : Z * Z * string :=
  match s with
  | EmptyString => (acc, len, s)
  | String c r =>
      match digit_of base c with
      | Some v => take_digits base r (acc * base + v) (len + 1)
      | None => (acc, len, s)
      end
  end.

(** A string that is digits in [base] only, and at least one. *)
Definition all_digits (base : Z) (s : string) : option Z :=
  match take_digits base s 0 0 with
  | (v, len, EmptyString) => if 0 <? len then Some v else None
  | _ => None
  end.

(** [0x], [0o], [0b] integer literals (no sign is allowed on them). *)
Definition non_decimal (s : string) : option Z :=
  match s with
  | String "0" (String p r) =>
      if (Ascii.eqb p "x" || Ascii.eqb p "X")%char then all_digits 16 r
      else if (Ascii.eqb p "o" || Ascii.eqb p "O")%char then all_digits 8 r
      else if (Ascii.eqb p "b" || Ascii.eqb p "B")%char then all_digits 2 r
      else None
  | _ => None
  end.

Definition sign_prefix (s : string) : Z * string :=
  match s with
  | String "+" r => (1, r)
  | String "-" r => (-1, r)
  | _ => (1, s)
  end.

(** The exponent part: empty, or [e]/[E], an optional sign and digits. *)
Definition exponent_part (s : string) : option Z :=
  match s with
  | EmptyString => Some 0
  | String c r =>
      if (Ascii.eqb c "e" || Ascii.eqb c "E")%char then
        let (sg, r') := sign_prefix r in
        option_map (Z.mul sg) (all_digits 10 r')
      else None
  end.

(** [digits . digits? exp?], [. digits exp?] or [digits exp?]: the
    mathematical value of an unsigned decimal literal. *)
Definition unsigned_decimal (s : string) : option Q :=
  let '(ip, ilen, r1) := take_digits 10 s 0 0 in
  let '(m, flen, r2) :=
    match r1 with
    | String "." r => take_digits 10 r ip 0
    | _ => (ip, 0, r1)
    end in
  if (ilen + flen =? 0) then None else
  match exponent_part r2 with
  | Some ex =>
      let sc := ex - flen in
      Some (if 0 <=? sc then inject_Z (m * 10 ^ sc)
            else Qmake m (Z.to_pos (10 ^ (- sc))))
  | None => None
  end.

Definition StringToNumber (s : string) : number :=
  let t := trim s in
  if (t =? "")%string then Finite 0 else
  match non_decimal t with
  | Some n => round64 (inject_Z n)
  | None =>
      let (sg, u) := sign_prefix t in
      if (u =? "Infinity")%string then
        (if sg <? 0 then NegInfinity else PosInfinity)
      else
        match unsigned_decimal u with
        | Some q => round64 (inject_Z sg * q)
        | None => NaN
        end
  end.

(** *** Comparisons of finite numbers, and numeric literals *)

Definition leb (x y : Q) : bool := Qle_bool x y.
Definition geb (x y : Q) : bool := Qle_bool y x.
Definition ltb (x y : Q) : bool := negb (Qle_bool y x).
Definition gtb (x y : Q) : bool := negb (Qle_bool x y).

(** The value of a decimal literal of the source text such as [99.6]: the
    double nearest to it. *)
Definition lit (q : Q) : Q :=
  match round64 q with
  | Finite r => r
  | _ => 0%Q
  end.

(** *** Arithmetic on numbers

    Each operation yields the double nearest to the exact result, as IEEE
    754 prescribes; the sign of a zero is not kept. *)

(** [x <= y] *)
Definition num_leb (x y : number) : bool :=
  match x, y with
  | Finite a, Finite b => Qle_bool a b
  | Finite _, PosInfinity => true
  | NegInfinity, Finite _ => true
  | NegInfinity, NegInfinity => true
  | NegInfinity, PosInfinity => true
  | PosInfinity, PosInfinity => true
  | _, _ => false
  end.

(** [x === y] *)
Definition num_eqb (x y : number) : bool :=
  match x, y with
  | Finite a, Finite b => Qeq_bool a b
  | PosInfinity, PosInfinity => true
  | NegInfinity, NegInfinity => true
  | _, _ => false
  end.

(** An infinity times a finite number. *)
Definition scale_infinity (positive : bool) (a : Q) : number :=
  if Qeq_bool a 0 then NaN
  else if Bool.eqb positive (Qle_bool 0 a) then PosInfinity
  else NegInfinity.

(** [x * y] *)
Definition num_mul (x y : number) : number :=
  match x, y with
  | NaN, _ => NaN
  | _, NaN => NaN
  | Finite a, Finite b => round64 (a * b)
  | Finite a, PosInfinity => scale_infinity true a
  | PosInfinity, Finite a => scale_infinity true a
  | Finite a, NegInfinity => scale_infinity false a
  | NegInfinity, Finite a => scale_infinity false a
  | PosInfinity, PosInfinity => PosInfinity
  | NegInfinity, NegInfinity => PosInfinity
  | PosInfinity, NegInfinity => NegInfinity
  | NegInfinity, PosInfinity => NegInfinity
  end.

(** [x + y] *)
Definition num_add (x y : number) : number :=
  match x, y with
  | NaN, _ => NaN
  | _, NaN => NaN
  | Finite a, Finite b => round64 (a + b)
  | PosInfinity, NegInfinity => NaN
  | NegInfinity, PosInfinity => NaN
  | PosInfinity, _ => PosInfinity
  | _, PosInfinity => PosInfinity
  | NegInfinity, _ => NegInfinity
  | _, NegInfinity => NegInfinity
  end.

(** [Math.floor] *)
Definition Math_floor (x : number) : number :=
  match x with
  | Finite q => Finite (inject_Z (Qfloor q))
  | _ => x
  end.

(** [Math.pow(2, n)] for a whole number [n]. *)
Definition Math_pow2 (n : Z) : number :=
  if n <? 0 then round64 (Qmake 1 (Z.to_pos (2 ^ (- n))))
  else round64 (inject_Z (2 ^ n)).

(** A whole number held in a number. *)
Definition of_int (n : Z) : number := Finite (inject_Z n).

(** [n++] for a counter that started at 0: past 2^53 the next whole number
    is no double and the sum rounds back to 2^53. *)
Definition increment (n : Z) : Z :=
  if n <? 2 ^ 53 then n + 1 else n.

End JS.

Import JS.

(** ** Field normaliser *)

(** A patient as [fetchAllPatients] stores it: the parsed object, with no
    field checked beyond the presence of the [patient_id] key. *)
Definition Patient : Type := list (string * value).

Definition patient_id (p : Patient) : value := lookup "patient_id" p.
Definition age (p : Patient) : value := lookup "age" p.
Definition blood_pressure (p : Patient) : value := lookup "blood_pressure" p.
Definition temperature (p : Patient) : value := lookup "temperature" p.

Definition isNonEmptyString (v : value) : bool :=
  match v with
  | Str s => negb (trim s =? "")%string
  | _ => false
  end.

Definition toFiniteNumber (v : value) : option Q :=
  match v with
  | Num n => finite_part n
  | Str s => finite_part (StringToNumber (trim s))
  | _ => None
  end.

Definition parseBloodPressure (bp : value) : option (Q * Q) :=
  if negb (isNonEmptyString bp) then None else
  match bp with
  | Str s =>
      match split "/" s with
      | [p0; p1] =>
          let sysStr := trim p0 in
          let diaStr := trim p1 in
          if (sysStr =? "")%string || (diaStr =? "")%string then None else
          match toFiniteNumber (Str sysStr), toFiniteNumber (Str diaStr) with
          | Some sys, Some dia => Some (sys, dia)
          | _, _ => None
          end
      | _ => None
      end
  | _ => None
  end.

(** ** Risk scorer *)

(** The constants [sysPoints] and [diaPoints] of [bloodPressureScore]. *)
Definition sysPoints (sys : Q) : Z :=
  if ltb sys 120 then 1
  else if geb sys 120 && leb sys 129 then 2
  else if geb sys 130 && leb sys 139 then 3
  else 4.

Definition diaPoints (dia : Q) : Z :=
  if ltb dia 80 then 1
  else if geb dia 80 && leb dia 89 then 3
  else 4.

Definition bloodPressureScore (bp : value) : Z :=
  match parseBloodPressure bp with
  | None => 0
  | Some (sys, dia) => Z.max (sysPoints sys) (diaPoints dia)
  end.

(** The literals [99.5], [99.6], [100.9] and [101.0]. *)
Definition c99_5 : Q := lit (995 # 10).
Definition c99_6 : Q := lit (996 # 10).
Definition c100_9 : Q := lit (1009 # 10).
Definition c101_0 : Q := lit (1010 # 10).

Definition temperatureScore (temp : value) : Z :=
  match toFiniteNumber temp with
  | None => 0
  | Some t =>
      if leb t c99_5 then 0
      else if geb t c99_6 && leb t c100_9 then 1
      else if geb t c101_0 then 2
      else 0
  end.

Definition ageScore (a : value) : Z :=
  match toFiniteNumber a with
  | None => 0
  | Some a => if gtb a 65 then 2 else 1
  end.

(** [x === null] on the result of a normaliser. *)
Definition is_null {A} (o : option A) : bool :=
  match o with
  | None => true
  | Some _ => false
  end.

Definition hasDataQualityIssue (p : Patient) : bool :=
  let bpInvalid := is_null (parseBloodPressure (blood_pressure p)) in
  let tempInvalid := is_null (toFiniteNumber (temperature p)) in
  let ageInvalid := is_null (toFiniteNumber (age p)) in
  bpInvalid || tempInvalid || ageInvalid.

Definition isFeverPatient (p : Patient) : bool :=
  match toFiniteNumber (temperature p) with
  | None => false
  | Some t => geb t c99_6
  end.

Definition totalRiskScore (p : Patient) : Z :=
  bloodPressureScore (blood_pressure p)
  + temperatureScore (temperature p)
  + ageScore (age p).


(** ** Alert sets *)

(** The equality [Set.prototype.add] uses.  Every object or array the run
    sees comes out of [JSON.parse] as a reference of its own and each record
    is processed once, so two object-valued identifiers offered to a set are
    never the same reference. *)
Definition sameValueZero (a b : value) : bool :=
  match a, b with
  | Undefined, Undefined => true
  | Null, Null => true
  | Bool x, Bool y => Bool.eqb x y
  | Num NaN, Num NaN => true
  | Num PosInfinity, Num PosInfinity => true
  | Num NegInfinity, Num NegInfinity => true
  | Num (Finite x), Num (Finite y) => Qeq_bool x y
  | Str x, Str y => (x =? y)%string
  | _, _ => false
  end.

(** A [Set] is its elements in insertion order, which is the order
    [Array.from] lists them in. *)
Definition set_has (x : value) (s : list value) : bool :=
  existsb (sameValueZero x) s.

Definition set_add (x : value) (s : list value) : list value :=
  if set_has x s then s else s ++ [x].

Record AlertSets : Type := mkAlertSets {
  highRisk : list value;
  fever : list value;
  dataIssues : list value
}.

Definition no_alerts : AlertSets := mkAlertSets [] [] [].

(** One iteration of the loop of [main] over the fetched patients. *)
Definition classify_step (acc : AlertSets) (p : Patient) : AlertSets :=
  let id := patient_id p in
  if negb (truthy id) then acc else
  let dataIssues' :=
    if hasDataQualityIssue p then set_add id (dataIssues acc)
    else dataIssues acc in
  let fever' :=
    if isFeverPatient p then set_add id (fever acc) else fever acc in
  let total := totalRiskScore p in
  let highRisk' :=
    if 4 <=? total then set_add id (highRisk acc) else highRisk acc in
  mkAlertSets highRisk' fever' dataIssues'.

Definition classify (patients : list Patient) : AlertSets :=
  fold_left classify_step patients no_alerts.

Record SubmissionBody : Type := mkSubmissionBody {
  high_risk_patients : list value;
  fever_patients : list value;
  data_quality_issues : list value
}.

Section Submission.

(** [Array.prototype.sort] without a comparator orders the elements by
    their string conversion, compared code unit by code unit, and keeps
    [undefined] last.  The conversion of a string is the string; the
    conversion of any other value is the runtime's and is left open. *)
Variable ToStringOther : value -> string.

Definition ToString (v : value) : string :=
  match v with
  | Str s => s
  | _ => ToStringOther v
  end.

Definition sortLe (a b : value) : bool :=
  match a, b with
  | _, Undefined => true
  | Undefined, _ => false
  | _, _ => (ToString a <=? ToString b)%string
  end.

Fixpoint insert (x : value) (l : list value) : list value :=
  match l with
  | [] => [x]
  | y :: l' => if sortLe x y then x :: l else y :: insert x l'
  end.

(** The sort is stable, as the language requires. *)
Definition sort (l : list value) : list value := fold_right insert [] l.

Definition submission (s : AlertSets) : SubmissionBody :=
  mkSubmissionBody (sort (highRisk s)) (sort (fever s)) (sort (dataIssues s)).

End Submission.

(** ** Retrying transport *)

Record RequestInit : Type := mkRequestInit {
  method : string;
  headers : list (string * string);
  body : option SubmissionBody        (* the payload [JSON.stringify] sends *)
}.

Record Response : Type := mkResponse {
  status : Z;
  text : option string;               (* [None]: [res.text()] rejects *)
  json : option value                 (* [None]: [res.json()] rejects *)
}.

Definition ok (res : Response) : bool :=
  (200 <=? status res) && (status res <=? 299).

Inductive FetchOutcome : Type :=
| Rejected (reason : string)          (* [fetch] rejects: network failure *)
| Responded (res : Response).

(** What the program cannot control: the answer to its n-th [fetch] and the
    n-th value of [Math.random]. *)
Record Network : Type := mkNetwork {
  respond : nat -> string -> RequestInit -> FetchOutcome;
  random : nat -> Q
}.

(** What the program has done so far. *)
Record World : Type := mkWorld {
  calls : list (string * RequestInit);    (* the fetches, oldest first *)
  draws : nat;                            (* values of [Math.random] used *)
  slept : list number                     (* the waits in ms, oldest first *)
}.

Definition start : World := mkWorld [] 0 [].

Inductive Error : Type :=
| HttpAfterRetries (st : Z) (b : string)  (* HTTP st after retries. Body: b *)
| HttpStatus (st : Z) (b : string)        (* HTTP st. Body: b *)
| FetchFailed (reason : string)
| BodyNotJson
| Unreachable                             (* fetchWithRetry: unreachable *)
| TypeError.

(** Computations that read and extend the world and may throw. *)
Definition M (A : Type) : Type := World -> (Error + A) * World.

Definition ret {A} (a : A) : M A := fun w => (inr a, w).

Definition throw {A} (e : Error) : M A := fun w => (inl e, w).

Definition bind {A B} (m : M A) (k : A -> M B) : M B :=
  fun w =>
    match m w with
    | (inl e, w') => (inl e, w')
    | (inr a, w') => k a w'
    end.

Definition try_catch {A} (m : M A) (handler : Error -> M A) : M A :=
  fun w =>
    match m w with
    | (inl e, w') => handler e w'
    | (inr a, w') => (inr a, w')
    end.

Declare Scope transport_scope.
Delimit Scope transport_scope with transport.
Notation "x <- m ;; k" := (bind m (fun x => k))
  (at level 100, m at next level, right associativity) : transport_scope.
Notation "m ;;; k" := (bind m (fun _ => k))
  (at level 100, right associativity) : transport_scope.

(** An iteration of a loop body either returns from the function or goes on
    to the next iteration. *)
Inductive Step (A : Type) : Type :=
| Return (a : A)
| Continue.
Arguments Return {A} a.
Arguments Continue {A}.

(** A run that may not finish: [None] when a loop is still running after
    the number of iterations the observer allows. *)
Definition Run (A : Type) : Type := option ((Error + A) * World).

Section Transport.

Variable net : Network.

Definition fetch (url : string) (init : RequestInit) : M Response :=
  fun w =>
    let w' := mkWorld (calls w ++ [(url, init)]) (draws w) (slept w) in
    match respond net (List.length (calls w)) url init with
    | Rejected reason => (inl (FetchFailed reason), w')
    | Responded res => (inr res, w')
    end.

Definition Math_random : M Q :=
  fun w => (inr (random net (draws w)),
            mkWorld (calls w) (S (draws w)) (slept w)).

Definition sleep (ms : number) : M unit :=
  fun w => (inr tt, mkWorld (calls w) (draws w) (slept w ++ [ms])).

(** [await res.text().catch(() => "")] *)
Definition text_or_empty (res : Response) : string :=
  match text res with
  | Some b => b
  | None => ""
  end.

Definition res_json (res : Response) : M value :=
  match json res with
  | Some v => ret v
  | None => throw BodyNotJson
  end.

Definition retryable (st : Z) : bool :=
  existsb (Z.eqb st) [429; 500; 503].

(** The options object: each field a number, or left out. *)
Record RetryOpts : Type := mkRetryOpts {
  retries : option number;
  baseDelayMs : option number
}.

Definition default_opts : RetryOpts := mkRetryOpts None None.

(** [o ?? d] *)
Definition or_default (o : option number) (d : number) : number :=
  match o with
  | Some v => v
  | None => d
  end.

Local Open Scope transport_scope.

(** [Math.floor(Math.random() * 150)], given the value drawn. *)
Definition jitter_of (r : Q) : number :=
  Math_floor (num_mul (Finite r) (of_int 150)).

(** [baseDelayMs * Math.pow(2, attempt) + jitter] *)
Definition wait_of (baseDelayMs : number) (attempt : Z) (jitter : number)
  : number :=
  num_add (num_mul baseDelayMs (Math_pow2 attempt)) jitter.

(** The three statements that draw the jitter, compute the wait and
    sleep. *)
Definition backoff (baseDelayMs : number) (attempt : Z) : M unit :=
  r <- Math_random ;;
  let jitter := jitter_of r in
  let wait := wait_of baseDelayMs attempt jitter in
  sleep wait.

(** The body of the [for] loop: the [try] block and its [catch].  The
    counter [attempt] holds a whole number. *)
Definition attempt_once (url : string) (init : RequestInit)
    (retries baseDelayMs : number) (attempt : Z) : M (Step value) :=
  try_catch
    (res <- fetch url init ;;
     if retryable (status res) then
       if num_eqb (of_int attempt) retries then
         throw (HttpAfterRetries (status res) (text_or_empty res))
       else
         backoff baseDelayMs attempt ;;;
         ret Continue
     else if negb (ok res) then
       throw (HttpStatus (status res) (text_or_empty res))
     else
       v <- res_json res ;;
       ret (Return v))
    (fun err =>
       if num_eqb (of_int attempt) retries then throw err
       else
         backoff baseDelayMs attempt ;;;
         ret Continue).

(** [for (attempt = 0; attempt <= retries; attempt++)], run for at most
    [fuel] iterations; past the loop the function throws. *)
Fixpoint retry_loop (url : string) (init : RequestInit)
    (retries baseDelayMs : number) (fuel : nat) (attempt : Z) (w : World)
  : Run value :=
  if num_leb (of_int attempt) retries then
    match fuel with
    | O => None
    | S fuel' =>
        match attempt_once url init retries baseDelayMs attempt w with
        | (inl e, w') => Some (inl e, w')
        | (inr (Return v), w') => Some (inr v, w')
        | (inr Continue, w') =>
            retry_loop url init retries baseDelayMs fuel'
              (increment attempt) w'
        end
    end
  else Some (inl Unreachable, w).

(** The iterations the loop can run: a budget below 2^53 bounds them by
    itself, a larger or infinite one leaves the bound to the observer. *)
Definition loop_bound (retries : number) (fuel : nat) : nat :=
  match retries with
  | Finite q =>
      if Qle_bool (inject_Z (2 ^ 53)) q then fuel
      else Z.to_nat (Qfloor q + 1)
  | PosInfinity => fuel
  | _ => O
  end.

Definition fetchWithRetry (url : string) (init : RequestInit)
    (opts : RetryOpts) (fuel : nat) (w : World) : Run value :=
  let retries := or_default (retries opts) (of_int 6) in
  let baseDelayMs := or_default (baseDelayMs opts) (of_int 250) in
  retry_loop url init retries baseDelayMs (loop_bound retries fuel) 0 w.

End Transport.

(** ** Pagination driver and the run *)

Definition BASE_URL : string := "https://assessment.ksensetech.com/api".

(** An integer inside a template literal. *)
Definition number_to_string (n : Z) : string :=
  NilZero.string_of_int (Z.to_int n).

(** [resp.data]: reading a property of [null] or [undefined] throws, a
    parsed object has its own keys, and no other JSON value has a [data]
    property. *)
Definition get_data (resp : value) : M value :=
  match resp with
  | Null | Undefined => throw TypeError
  | Obj fields => ret (lookup "data" fields)
  | _ => ret Undefined
  end.

(** [Array.isArray(d) ? d : []] *)
Definition array_or_empty (d : value) : list value :=
  match d with
  | Arr items => items
  | _ => []
  end.

(** [item && typeof item === "object" && "patient_id" in item]: of the
    values [JSON.parse] builds only an object can carry the key. *)
Definition as_patient (item : value) : option Patient :=
  match item with
  | Obj fields => if has_key "patient_id" fields then Some fields else None
  | _ => None
  end.

(** The [for ... of] loop that pushes the items that look like patients. *)
Definition push_patients (all : list Patient) (data : list value)
  : list Patient :=
  fold_left (fun (all : list Patient) (item : value) =>
               match as_patient item with
               | Some p => (all ++ [p])%list
               | None => all
               end) data all.

Section Run.

Variable API_KEY : string.
Variable net : Network.
Variable ToStringOther : value -> string.

Definition patients_url (page limit : Z) : string :=
  BASE_URL ++ "/patients?page=" ++ number_to_string page
           ++ "&limit=" ++ number_to_string limit.

Definition get_init : RequestInit :=
  mkRequestInit "GET"
    [("x-api-key", API_KEY); ("Accept", "application/json")] None.

(** [while (true)]: the loop has no bound of its own, so the model takes
    the number of iterations it may run and answers [None] past it. *)
Fixpoint fetchAllPatients_loop (fuel : nat) (page : Z) (all : list Patient)
    (w : World) : Run (list Patient) :=
  match fuel with
  | O => None
  | S fuel' =>
      let limit := 20 in
      let url := patients_url page limit in
      match fetchWithRetry net url get_init default_opts fuel w with
      | None => None
      | Some (inl e, w1) => Some (inl e, w1)
      | Some (inr resp, w1) =>
          match get_data resp w1 with
          | (inl e, w2) => Some (inl e, w2)
          | (inr d, w2) =>
              let data := array_or_empty d in
              if (List.length data =? 0)%nat then Some (inr all, w2)
              else
                let all' := push_patients all data in
                let w3 := snd (sleep (of_int 120) w2) in
                fetchAllPatients_loop fuel' (page + 1) all' w3
          end
      end
  end.

Definition fetchAllPatients (fuel : nat) (w : World) : Run (list Patient) :=
  fetchAllPatients_loop fuel 1 [] w.

Definition post_init (b : SubmissionBody) : RequestInit :=
  mkRequestInit "POST"
    [("x-api-key", API_KEY); ("Content-Type", "application/json");
     ("Accept", "application/json")] (Some b).

Definition submitAssessment (b : SubmissionBody) (fuel : nat) (w : World)
  : Run value :=
  fetchWithRetry net (BASE_URL ++ "/submit-assessment") (post_init b)
    (mkRetryOpts (Some (of_int 3)) (Some (of_int 400))) fuel w.

Definition main (fuel : nat) (w : World) : Run value :=
  match fetchAllPatients fuel w with
  | None => None
  | Some (inl e, w1) => Some (inl e, w1)
  | Some (inr patients, w1) =>
      let sets := classify patients in
      submitAssessment (submission ToStringOther sets) fuel w1
  end.

End Run.

(** ** The spec's vocabulary and the sample inputs of the examples *)

(** The spec's tiers, as the spec words them; a value between two tiers has
    no category. *)
Definition systolicCategory (s : Q) : option Z :=
  if ltb s 120 then Some 1
  else if geb s 120 && leb s 129 then Some 2
  else if geb s 130 && leb s 139 then Some 3
  else if geb s 140 then Some 4
  else None.

Definition diastolicCategory (d : Q) : option Z :=
  if ltb d 80 then Some 1
  else if geb d 80 && leb d 89 then Some 3
  else if geb d 90 then Some 4
  else None.

(** A record with the four fields the scorer reads. *)
Definition record (id bp temp a : value) : Patient :=
  [("patient_id", id); ("blood_pressure", bp); ("temperature", temp);
   ("age", a)].

(** The number a JSON numeric literal denotes. *)
Definition json_number (q : Q) : value := Num (round64 q).

(** Blood pressure [null], temperature 98.6, age 40. *)
Definition afebrile_without_bp : Patient :=
  record (Str "P1") Null (json_number (986 # 10)) (json_number 40).

(** No two entries of a list are the same set element; entries that are
    arrays or objects never are, whatever they hold. *)
Definition distinct (l : list value) : Prop :=
  ForallOrdPairs (fun a b => sameValueZero a b = false) l.

(** Identifiers that a set compares by value; an array or an object is
    compared by reference. *)
Definition primitive (v : value) : bool :=
  match v with
  | Arr _ | Obj _ => false
  | _ => true
  end.

Definition same_number (x y : number) : bool :=
  match x, y with
  | NaN, NaN => true
  | PosInfinity, PosInfinity => true
  | NegInfinity, NegInfinity => true
  | Finite a, Finite b => Qeq_bool a b
  | _, _ => false
  end.

(** Two values that read the same: the same primitive, or arrays or
    objects with the same content, as the submitted JSON shows them. *)
Fixpoint same_value (a b : value) {struct a} : bool :=
  match a, b with
  | Undefined, Undefined => true
  | Null, Null => true
  | Bool x, Bool y => Bool.eqb x y
  | Num x, Num y => same_number x y
  | Str x, Str y => (x =? y)%string
  | Arr xs, Arr ys =>
      (fix same_items (xs ys : list value) {struct xs} : bool :=
         match xs, ys with
         | [], [] => true
         | x :: xs', y :: ys' => same_value x y && same_items xs' ys'
         | _, _ => false
         end) xs ys
  | Obj xs, Obj ys =>
      (fix same_fields (xs ys : list (string * value)) {struct xs} : bool :=
         match xs, ys with
         | [], [] => true
         | (k, x) :: xs', (k', y) :: ys' =>
             (k =? k')%string && same_value x y && same_fields xs' ys'
         | _, _ => false
         end) xs ys
  | _, _ => false
  end.

(** No entry of the list reads the same as another entry. *)
Definition no_duplicates (l : list value) : Prop :=
  forall i j a b,
    nth_error l i = Some a -> nth_error l j = Some b -> i <> j ->
    same_value a b = false.

(** No primitive entry of the list reads the same as another entry. *)
Definition primitives_listed_once (l : list value) : Prop :=
  forall i j a b,
    nth_error l i = Some a -> nth_error l j = Some b -> i <> j ->
    primitive a = true -> same_value a b = false.

(** The string entries of a list, in order. *)
Definition strings_of (l : list value) : list string :=
  flat_map (fun v => match v with Str s => [s] | _ => [] end) l.

Definition in_alerts (id : value) (s : AlertSets) : Prop :=
  In id (highRisk s) \/ In id (fever s) \/ In id (dataIssues s).

Definition non_empty_string (v : value) : Prop :=
  exists s, v = Str s /\ s <> "".

(** A record whose [patient_id] is the JSON number 7. *)
Definition numbered_record : value :=
  Obj [("patient_id", json_number 7); ("age", json_number 40)].

(** The order [sort] arranges a list in. *)
Definition sort_le (ToStringOther : value -> string) (a b : value) : Prop :=
  sortLe ToStringOther a b = true.

(** What finalizing a set gives: its members, ascending in the order
    [sort] uses, the strings among them strictly ascending code unit by
    code unit, and no primitive entry twice. *)
Definition finalized (ToStringOther : value -> string)
    (set out : list value) : Prop :=
  Permutation set out /\
  StronglySorted (sort_le ToStringOther) out /\
  StronglySorted (fun a b => (a <? b)%string = true) (strings_of out) /\
  primitives_listed_once out.

(** Two records that carry the array [[1]] as identifier and nothing
    else. *)
Definition array_id_twice : list Patient :=
  [[("patient_id", Arr [json_number 1])];
   [("patient_id", Arr [json_number 1])]].

(** A list in the order [sort] uses, no two entries of it the same set
    element, and its strings strictly ascending code unit by code unit. *)
Definition sorted_without_duplicates (ToStringOther : value -> string)
    (l : list value) : Prop :=
  StronglySorted (sort_le ToStringOther) l /\
  distinct l /\
  StronglySorted (fun a b => (a <? b)%string = true) (strings_of l).

Definition all_distinct (s : AlertSets) : Prop :=
  distinct (highRisk s) /\ distinct (fever s) /\ distinct (dataIssues s).


(** How the loop body of [fetchWithRetry] reads one answer: the parsed
    body it returns, if any ... *)
Definition outcome_value (o : FetchOutcome) : option value :=
  match o with
  | Rejected _ => None
  | Responded res =>
      if retryable (status res) then None
      else if ok res then json res
      else None
  end.

(** ... and the error it raises for it otherwise. *)
Definition outcome_error (o : FetchOutcome) : Error :=
  match o with
  | Rejected reason => FetchFailed reason
  | Responded res =>
      if retryable (status res) then
        HttpAfterRetries (status res) (text_or_empty res)
      else if ok res then BodyNotJson
      else HttpStatus (status res) (text_or_empty res)
  end.


(** The answer to the [i]-th fetch issued from the world [w] on. *)
Definition answer (net : Network) (url : string) (init : RequestInit)
    (w : World) (i : nat) : FetchOutcome :=
  respond net (List.length (calls w) + i) url init.

(** The wait before the retry that follows attempt [attempt], when the
    [i]-th random value from [w] on is drawn for it. *)
Definition wait_after (net : Network) (baseDelayMs : number) (w : World)
    (attempt : Z) (i : nat) : number :=
  wait_of baseDelayMs attempt (jitter_of (random net (draws w + i))).

(** The world after [n] attempts, the first of them attempt [attempt],
    that each failed and were followed by a wait. *)
Definition after_failures (net : Network) (url : string)
    (init : RequestInit) (baseDelayMs : number) (w : World) (attempt : Z)
    (n : nat) : World :=
  mkWorld (calls w ++ repeat (url, init) n)
          (draws w + n)
          (slept w ++ map (fun i => wait_after net baseDelayMs w
                                      (attempt + Z.of_nat i) i) (seq 0 n)).

(** The world after [k] attempts that were retried and one more fetch,
    the first of them being attempt [attempt]. *)
Definition after_retries (net : Network) (url : string) (init : RequestInit)
    (baseDelayMs : number) (w : World) (attempt : Z) (k : nat) : World :=
  mkWorld (calls w ++ repeat (url, init) (S k))
          (draws w + k)
          (slept w ++ map (fun i => wait_after net baseDelayMs w
                                      (attempt + Z.of_nat i) i) (seq 0 k)).

(** The budget a call runs with: the one its options give, 6 when they
    give none. *)
Definition budget_of (opts : RetryOpts) (r : number) : Prop :=
  retries opts = Some r \/ (retries opts = None /\ r = of_int 6).

(** The base delay a call runs with: the one its options give, 250 when
    they give none. *)
Definition base_delay_of (opts : RetryOpts) (b : number) : Prop :=
  baseDelayMs opts = Some b \/ (baseDelayMs opts = None /\ b = of_int 250).

(** A finite budget that is a whole number. *)
Definition whole (q : Q) : bool := Qeq_bool (inject_Z (Qfloor q)) q.

(** The largest double below 1, hence the largest value of
    [Math.random]. *)
Definition below_one : Q := 1 - (1 # 9007199254740992).

(** The two steps of [round64] that find the exponent of a positive
    quotient [a/d] and its mantissa for the unit [2^u]. *)
Definition r64_e (a d : Z) : Z :=
  let e0 := Z.log2 a - Z.log2 d in
  let ge := if 0 <=? e0 then d * 2 ^ e0 <=? a else d <=? a * 2 ^ (- e0) in
  if ge then e0 else e0 - 1.

Definition r64_m (a d u : Z) : Z :=
  let num := if 0 <=? u then a else a * 2 ^ (- u) in
  let den := if 0 <=? u then d * 2 ^ u else d in
  let fl := num / den in
  let r := num mod den in
  match 2 * r ?= den with
  | Lt => fl
  | Gt => fl + 1
  | Eq => if Z.even fl then fl else fl + 1
  end.

(** Answers given in order from a list, a network failure past its end;
    [Math.random] constantly 1/2. *)
Definition scripted (answers : list FetchOutcome) : Network :=
  mkNetwork (fun i _ _ => nth i answers (Rejected "down"))
            (fun _ => (1 # 2)%Q).

Definition status_only (st : Z) : FetchOutcome :=
  Responded (mkResponse st (Some "busy") None).

Definition ok_json (v : value) : FetchOutcome :=
  Responded (mkResponse 200 None (Some v)).

Definition plain_get : RequestInit := mkRequestInit "GET" [] None.

Definition not_found : FetchOutcome :=
  Responded (mkResponse 404 (Some "Not Found") None).

(** The collection [fetchAllPatients] extracts from a parsed body that is
    neither [null] nor [undefined]. *)
Definition page_data (resp : value) : list value :=
  match resp with
  | Obj fields => array_or_empty (lookup "data" fields)
  | _ => []
  end.

Definition nullish (v : value) : bool :=
  match v with
  | Null | Undefined => true
  | _ => false
  end.

(** The entries of a collection that look like patients, in order. *)
Definition record_like (data : list value) : list Patient :=
  flat_map (fun item => match as_patient item with
                        | Some p => [p]
                        | None => []
                        end) data.

(** The [j]-th fetch from [w] on asks for page [page + j] and is answered
    with a success status and the [j]-th body of [bodies]. *)
Definition serves_pages (API_KEY : string) (net : Network) (w : World)
    (page : Z) (bodies : list value) : Prop :=
  forall (j : nat) (b : value),
    nth_error bodies j = Some b ->
    outcome_value
      (answer net (patients_url (page + Z.of_nat j) 20) (get_init API_KEY)
         w j) = Some b.

(** The world after the pages [page .. page + n] have been fetched at the
    first attempt, with the pacing wait after all but the last. *)
Definition after_pages (API_KEY : string) (w : World) (page : Z) (n : nat)
  : World :=
  mkWorld (calls w ++ map (fun j => (patients_url (page + Z.of_nat j) 20,
                                     get_init API_KEY)) (seq 0 (S n)))
          (draws w)
          (slept w ++ repeat (of_int 120) n).

(** The transport call for one page.  Its budget of 6 bounds the
    attempts, so the number of iterations allowed plays no part. *)
Definition fetch_page (API_KEY : string) (net : Network) (page : Z)
    (w : World) : Run value :=
  fetchWithRetry net (patients_url page 20) (get_init API_KEY)
    default_opts 0 w.

(** From the world [w] on, the transport returns for the pages
    [page, page + 1, ...] the parsed bodies [bodies] and then [last],
    after however many attempts each, the pacing wait of 120 ms made
    after each body of [bodies]; [w'] is the world when [last] is
    returned. *)
Inductive pages_returned (API_KEY : string) (net : Network)
  : World -> Z -> list value -> value -> World -> Prop :=
| returned_last (w : World) (page : Z) (last : value) (w' : World) :
    fetch_page API_KEY net page w = Some (inr last, w') ->
    pages_returned API_KEY net w page [] last w'
| returned_next (w : World) (page : Z) (b : value) (w1 : World)
    (bodies : list value) (last : value) (w' : World) :
    fetch_page API_KEY net page w = Some (inr b, w1) ->
    pages_returned API_KEY net
      (mkWorld (calls w1) (draws w1) (slept w1 ++ [of_int 120]))
      (page + 1) bodies last w' ->
    pages_returned API_KEY net w page (b :: bodies) last w'.

(** A page body with its [data] and the [hasNext] the server claims. *)
Definition page_body (data : list value) (hasNext : bool) : value :=
  Obj [("data", Arr data);
       ("pagination", Obj [("hasNext", Bool hasNext)])].


(** Page 1 claims there is no next page, page 3 is empty and claims there
    is one. *)
Definition patient_B : Patient :=
  record (Str "B") (Str "150/95") (json_number 102) (json_number 70).

Definition patient_A : Patient :=
  [("patient_id", Str "A"); ("age", json_number 70)].

Definition three_pages : list value :=
  [page_body [Obj patient_B; Str "noise"] false;
   page_body [Obj patient_A] true;
   page_body [] true].


(** ** Vocabulary of the further properties *)

(** How often a code unit occurs in a string. *)
Fixpoint count_char (c : ascii) (s : string) : nat :=
  match s with
  | EmptyString => 0%nat
  | String a r => ((if Ascii.eqb a c then 1 else 0) + count_char c r)%nat
  end.

(** A string of white space only. *)
Fixpoint all_white (s : string) : bool :=
  match s with
  | EmptyString => true
  | String c r => is_white c && all_white r
  end.

(** The jitter in whole milliseconds. *)
Definition jitter_ms (r : Q) : Z :=
  match jitter_of r with
  | Finite j => Qfloor j
  | _ => 0
  end.

(** The sum of a list of waits. *)
Definition total_ms (waits : list Z) : Z := fold_right Z.add 0 waits.

(** The world after the pages [page .. page + n - 1] have been fetched at
    the first attempt, each followed by the pacing wait. *)
Definition after_paced_pages (API_KEY : string) (w : World) (page : Z)
    (n : nat) : World :=
  mkWorld (calls w ++ map (fun j => (patients_url (page + Z.of_nat j) 20,
                                     get_init API_KEY)) (seq 0 n))
          (draws w)
          (slept w ++ repeat (of_int 120) n).

(** A server whose every page holds the same patient and says there is no
    next page. *)
Definition endless : Network :=
  mkNetwork (fun _ _ _ => ok_json (page_body [Obj patient_A] false))
            (fun _ => (1 # 2)%Q).

Definition submit_url : string := BASE_URL ++ "/submit-assessment".

(** A request of the pagination driver: a page URL with the [GET] init. *)
Definition is_page_get (API_KEY : string) (c : string * RequestInit)
  : Prop :=
  snd c = get_init API_KEY /\ exists page, fst c = patients_url page 20.

(** One alert set built on its own: the identifiers, in first-seen order,
    of the records that have one and pass [flag]. *)
Definition collect (flag : Patient -> bool) (patients : list Patient)
    (s : list value) : list value :=
  fold_left (fun (s : list value) (p : Patient) =>
               if truthy (patient_id p) && flag p
               then set_add (patient_id p) s else s) patients s.

Definition is_high_risk (p : Patient) : bool := 4 <=? totalRiskScore p.

(** The identifier is a string, or the record is skipped. *)
Definition has_string_id (p : Patient) : Prop :=
  truthy (patient_id p) = true -> exists s, patient_id p = Str s.

Definition is_Str (v : value) : Prop := exists s, v = Str s.
(** ** Properties of the normaliser and the scorer *)

Lemma c99_5_val : c99_5 = (199 # 2)%Q.
Proof. vm_compute. reflexivity. Qed.

Lemma c99_6_val : c99_6 = (3504363460047667 # 35184372088832)%Q.
Proof. vm_compute. reflexivity. Qed.

Lemma c100_9_val : c100_9 = (3550103143763149 # 35184372088832)%Q.
Proof. vm_compute. reflexivity. Qed.

Lemma c101_0_val : c101_0 = 101%Q.
Proof. vm_compute. reflexivity. Qed.

Lemma Qle_bool_false (x y : Q) : Qle_bool x y = false -> (y < x)%Q.
Proof.
  intros H. apply Qnot_le_lt. intros Hle.
  apply Qle_bool_iff in Hle. congruence.
Qed.

(** Case analysis on every comparison in the goal, then linear arithmetic. *)
Ltac qcases :=
  unfold leb, geb, ltb, gtb in *;
  rewrite ?c99_5_val, ?c99_6_val, ?c100_9_val, ?c101_0_val in *;
  repeat match goal with
         | |- context [Qle_bool ?a ?b] =>
             let E := fresh "E" in
             destruct (Qle_bool a b) eqn:E;
             [apply Qle_bool_iff in E | apply Qle_bool_false in E]
         | H : Qle_bool _ _ = true |- _ => apply Qle_bool_iff in H
         | H : Qle_bool _ _ = false |- _ => apply Qle_bool_false in H
         end;
  cbn [andb orb negb] in *;
  try reflexivity; try discriminate; try lia; try lra.

Lemma lookup_absent (k : string) (p : Patient) :
  has_key k p = false -> lookup k p = Undefined.
Proof.
  unfold has_key. induction p as [|[k' v] p IH]; cbn; [reflexivity|].
  destruct (k =? k')%string; cbn; [discriminate | exact IH].
Qed.

(** *** The normaliser *)

Lemma trimEnd_all_white (s : string) : all_white s = true -> trimEnd s = "".
Proof.
  induction s as [|c r IH]; cbn; [reflexivity|].
  intros H. apply andb_true_iff in H. destruct H as [Hc Hr].
  rewrite (IH Hr), Hc. reflexivity.
Qed.

Lemma trimStart_all_white (s : string) :
  all_white s = true -> trimStart s = "".
Proof.
  induction s as [|c r IH]; cbn; [reflexivity|].
  intros H. apply andb_true_iff in H. destruct H as [Hc Hr].
  rewrite Hc. exact (IH Hr).
Qed.

(** A value that is not a string is returned when it is a finite number
    and is absent otherwise: [null], a missing field, [NaN], the
    infinities, a boolean, an array, an object. *)
Lemma toFiniteNumber_not_a_string :
  (forall q, toFiniteNumber (Num (Finite q)) = Some q) /\
  toFiniteNumber Null = None /\
  toFiniteNumber Undefined = None /\
  (forall k p, has_key k p = false -> toFiniteNumber (lookup k p) = None) /\
  toFiniteNumber (Num NaN) = None /\
  toFiniteNumber (Num PosInfinity) = None /\
  toFiniteNumber (Num NegInfinity) = None /\
  (forall b, toFiniteNumber (Bool b) = None) /\
  (forall items, toFiniteNumber (Arr items) = None) /\
  (forall fields, toFiniteNumber (Obj fields) = None).
Proof.
  repeat split; try reflexivity.
  intros k p H. rewrite (lookup_absent _ _ H). reflexivity.
Qed.

(** Strings that spell a number are read, padded or not, in decimal,
    with an exponent, or as a hexadecimal integer. *)
Example toFiniteNumber_numeric_strings :
  toFiniteNumber (Str " 98.6 ") = Some (lit (986 # 10)) /\
  toFiniteNumber (Str "-.5") = Some (- (1 # 2))%Q /\
  toFiniteNumber (Str "1e3") = Some 1000%Q /\
  toFiniteNumber (Str "0x1F") = Some 31%Q.
Proof. repeat split; vm_compute; reflexivity. Qed.

(** Strings that do not spell a finite number are absent. *)
Example toFiniteNumber_non_numeric_strings :
  toFiniteNumber (Str "N/A") = None /\
  toFiniteNumber (Str "98.6F") = None /\
  toFiniteNumber (Str "1e") = None /\
  toFiniteNumber (Str "1,5") = None /\
  toFiniteNumber (Str "12 3") = None /\
  toFiniteNumber (Str ".") = None /\
  toFiniteNumber (Str "-Infinity") = None /\
  toFiniteNumber (Str "1e999") = None.
Proof. repeat split; vm_compute; reflexivity. Qed.

(** C4.  A string without a single digit is not numeric, yet for the
    empty string and for every string of white space [toFiniteNumber]
    does not return absent: [Number] reads the trimmed, empty string as 0
    and 0 is finite.  So a record whose temperature and age are blank
    raises no data-quality flag and its blank age earns the point of a
    valid age, whereas the blood-pressure parser rejects a blank side
    before it normalises it. *)
Theorem toFiniteNumber_blank_string_is_zero :
  (forall s, all_white s = true -> toFiniteNumber (Str s) = Some 0%Q) /\
  toFiniteNumber (Str "") = Some 0%Q /\
  hasDataQualityIssue
    (record (Str "P1") (Str "120/80") (Str "") (Str "  ")) = false /\
  ageScore (Str "  ") = 1 /\
  parseBloodPressure (Str " /80") = None /\
  parseBloodPressure (Str "120/") = None.
Proof.
  split; [|repeat split; vm_compute; reflexivity].
  intros s H. unfold toFiniteNumber, StringToNumber, trim.
  rewrite (trimStart_all_white _ H). reflexivity.
Qed.

Lemma toFiniteNumber_blank_string_is_zero_witness :
  all_white "  " = true /\ toFiniteNumber (Str "  ") = Some 0%Q.
Proof.
  split; [reflexivity|].
  apply (proj1 toFiniteNumber_blank_string_is_zero). reflexivity.
Defined.

(** On readings that fall in a tier the code and the spec's table agree. *)
Lemma bloodPressureScore_on_tiers (bp : value) (s d : Q) (cs cd : Z) :
  parseBloodPressure bp = Some (s, d) ->
  systolicCategory s = Some cs ->
  diastolicCategory d = Some cd ->
  bloodPressureScore bp = Z.max cs cd.
Proof.
  intros Hp Hs Hd. unfold bloodPressureScore. rewrite Hp.
  f_equal.
  - revert Hs. unfold systolicCategory, sysPoints.
    destruct (ltb s 120); [congruence|].
    destruct (geb s 120 && leb s 129); [congruence|].
    destruct (geb s 130 && leb s 139); [congruence|].
    destruct (geb s 140); [congruence | discriminate].
  - revert Hd. unfold diastolicCategory, diaPoints.
    destruct (ltb d 80); [congruence|].
    destruct (geb d 80 && leb d 89); [congruence|].
    destruct (geb d 90); [congruence | discriminate].
Qed.

Lemma bloodPressureScore_unparsed (bp : value) :
  parseBloodPressure bp = None -> bloodPressureScore bp = 0.
Proof. intros H. unfold bloodPressureScore. rewrite H. reflexivity. Qed.

(** A reading strictly between two tiers gets the points of the top tier. *)
Lemma points_between_tiers (x : Q) :
  ((129 < x /\ x < 130)%Q \/ (139 < x /\ x < 140)%Q -> sysPoints x = 4) /\
  ((89 < x /\ x < 90)%Q -> diaPoints x = 4).
Proof.
  unfold sysPoints, diaPoints. split; intros H; qcases.
Qed.

(** C6.  A systolic reading between two tiers, here 129.5, parses, is below
    140 and lies in none of the spec's tiers, yet it takes the final [else]
    branch that the source comments as [>= 140] and scores 4. *)
Theorem bloodPressureScore_between_tiers :
  parseBloodPressure (Str "129.5/70") = Some ((259 # 2)%Q, 70%Q) /\
  ((259 # 2) < 140)%Q /\
  systolicCategory (259 # 2) = None /\
  diastolicCategory 70 = Some 1 /\
  bloodPressureScore (Str "129.5/70") = 4.
Proof. repeat split. Qed.

(** C10.  A temperature strictly between the literals [100.9] and [101.0]
    scores 0 temperature points although the patient is a fever patient. *)
Theorem temperature_gap_fever_without_points (p : Patient) (t : Q) :
  toFiniteNumber (temperature p) = Some t ->
  (c100_9 < t)%Q -> (t < c101_0)%Q ->
  temperatureScore (temperature p) = 0 /\ isFeverPatient p = true.
Proof.
  intros Ht Hlo Hhi. unfold temperatureScore, isFeverPatient.
  rewrite Ht. split; qcases.
Qed.

Lemma temperature_gap_fever_without_points_witness :
  temperatureScore (temperature [("temperature", Str "100.95")]) = 0 /\
  isFeverPatient [("temperature", Str "100.95")] = true.
Proof.
  apply (temperature_gap_fever_without_points
           [("temperature", Str "100.95")] (lit (10095 # 100))).
  - vm_compute. reflexivity.
  - vm_compute. reflexivity.
  - vm_compute. reflexivity.
Defined.


(** *** Data-quality flag and per-field scores *)

Lemma is_null_true {A} (o : option A) : is_null o = true <-> o = None.
Proof. destruct o; cbn; split; congruence. Qed.

Lemma hasDataQualityIssue_iff (p : Patient) :
  hasDataQualityIssue p = true <->
  parseBloodPressure (blood_pressure p) = None \/
  toFiniteNumber (temperature p) = None \/
  toFiniteNumber (age p) = None.
Proof.
  unfold hasDataQualityIssue.
  rewrite !orb_true_iff, !is_null_true. tauto.
Qed.

Lemma ageScore_parsed (v : value) (a : Q) :
  toFiniteNumber v = Some a -> ageScore v = 1 \/ ageScore v = 2.
Proof.
  intros H. unfold ageScore. rewrite H.
  destruct (gtb a 65); [right | left]; reflexivity.
Qed.

Lemma temperatureScore_nonzero_iff (v : value) (t : Q) :
  toFiniteNumber v = Some t ->
  (temperatureScore v <> 0 <->
   (c99_6 <= t /\ t <= c100_9)%Q \/ (c101_0 <= t)%Q).
Proof.
  intros H. unfold temperatureScore. rewrite H.
  qcases; split; intros; try lia; try lra; try tauto.
Qed.

(** C5, as stated, fails: a record whose blood pressure is [null] and whose
    temperature and age are valid is flagged, but with a temperature of 98.6
    its temperature points are zero. *)
Lemma flagged_record_without_temperature_points :
  blood_pressure afebrile_without_bp = Null /\
  toFiniteNumber (temperature afebrile_without_bp) = Some (lit (986 # 10)) /\
  toFiniteNumber (age afebrile_without_bp) = Some 40%Q /\
  hasDataQualityIssue afebrile_without_bp = true /\
  temperatureScore (temperature afebrile_without_bp) = 0 /\
  ageScore (age afebrile_without_bp) = 1 /\
  totalRiskScore afebrile_without_bp = 1.
Proof. vm_compute. repeat split. Qed.

(** C5, amended.  The flag is raised exactly when one of the three fields
    fails to normalise, and the scores are per field whatever the flag says:
    a field that fails contributes 0 and the others contribute what they
    would in any record.  With an unparsable blood pressure and valid
    temperature and age the record is flagged and its total is its
    temperature points plus its age points; the age points are 1 or 2, the
    temperature points are nonzero exactly in the two scoring tiers. *)
Theorem quality_flag_and_partial_scores (p : Patient) :
  (hasDataQualityIssue p = true <->
     parseBloodPressure (blood_pressure p) = None \/
     toFiniteNumber (temperature p) = None \/
     toFiniteNumber (age p) = None) /\
  (parseBloodPressure (blood_pressure p) = None ->
     bloodPressureScore (blood_pressure p) = 0) /\
  (toFiniteNumber (temperature p) = None ->
     temperatureScore (temperature p) = 0) /\
  (toFiniteNumber (age p) = None -> ageScore (age p) = 0) /\
  (forall t a,
     parseBloodPressure (blood_pressure p) = None ->
     toFiniteNumber (temperature p) = Some t ->
     toFiniteNumber (age p) = Some a ->
     hasDataQualityIssue p = true /\
     totalRiskScore p
       = temperatureScore (temperature p) + ageScore (age p) /\
     (ageScore (age p) = 1 \/ ageScore (age p) = 2) /\
     (temperatureScore (temperature p) <> 0 <->
        (c99_6 <= t /\ t <= c100_9)%Q \/ (c101_0 <= t)%Q) /\
     1 <= totalRiskScore p).
Proof.
  split; [apply hasDataQualityIssue_iff|].
  split; [apply bloodPressureScore_unparsed|].
  split; [intros H; unfold temperatureScore; rewrite H; reflexivity|].
  split; [intros H; unfold ageScore; rewrite H; reflexivity|].
  intros t a Hbp Ht Ha.
  assert (Hage := ageScore_parsed _ _ Ha).
  assert (Htot : totalRiskScore p
                 = temperatureScore (temperature p) + ageScore (age p)).
  { unfold totalRiskScore. rewrite (bloodPressureScore_unparsed _ Hbp). lia. }
  split; [apply hasDataQualityIssue_iff; left; exact Hbp|].
  split; [exact Htot|].
  split; [exact Hage|].
  split; [apply temperatureScore_nonzero_iff; exact Ht|].
  rewrite Htot.
  assert (0 <= temperatureScore (temperature p)).
  { unfold temperatureScore. rewrite Ht. qcases. }
  lia.
Qed.

Lemma quality_flag_and_partial_scores_witness :
  hasDataQualityIssue (record (Str "P2") Null (Str "100.2") (Str "70"))
    = true /\
  totalRiskScore (record (Str "P2") Null (Str "100.2") (Str "70")) = 3.
Proof.
  pose (p := record (Str "P2") Null (Str "100.2") (Str "70")).
  destruct (quality_flag_and_partial_scores p) as (_ & _ & _ & _ & H).
  destruct (H (lit (1002 # 10)) 70%Q) as (Hflag & Htot & _).
  - reflexivity.
  - vm_compute. reflexivity.
  - vm_compute. reflexivity.
  - split; [exact Hflag|]. etransitivity; [exact Htot|]. vm_compute. reflexivity.
Defined.

(** ** Properties of the alert sets *)

Lemma truthy_Str (s : string) : truthy (Str s) = true <-> s <> "".
Proof.
  cbn. rewrite negb_true_iff. apply String.eqb_neq.
Qed.

Lemma set_add_In (x y : value) (s : list value) :
  In x (set_add y s) -> In x s \/ x = y.
Proof.
  unfold set_add. destruct (set_has y s); [tauto|].
  intros H. apply in_app_or in H. destruct H as [H|[H|[]]]; auto.
Qed.

Lemma set_add_keeps (x y : value) (s : list value) :
  In x s -> In x (set_add y s).
Proof.
  unfold set_add. destruct (set_has y s); [tauto|].
  intros H. apply in_or_app. left. exact H.
Qed.

Lemma set_has_Str (s : string) (l : list value) :
  set_has (Str s) l = true <-> In (Str s) l.
Proof.
  unfold set_has. rewrite existsb_exists. split.
  - intros [x [Hin Heq]]. destruct x; cbn in Heq; try discriminate.
    apply String.eqb_eq in Heq. subst. exact Hin.
  - intros Hin. exists (Str s). split; [exact Hin|]. cbn.
    apply String.eqb_refl.
Qed.

Lemma set_add_In_Str (s : string) (y : value) (l : list value) :
  In (Str s) (set_add y l) <-> In (Str s) l \/ y = Str s.
Proof.
  split.
  - intros H. apply set_add_In in H. destruct H; auto.
  - intros [H|H]; [apply set_add_keeps; exact H|]. subst y.
    unfold set_add. destruct (set_has (Str s) l) eqn:E.
    + apply set_has_Str. exact E.
    + apply in_or_app. right. left. reflexivity.
Qed.

Lemma classify_step_skips (acc : AlertSets) (p : Patient) :
  truthy (patient_id p) = false -> classify_step acc p = acc.
Proof. intros H. unfold classify_step. rewrite H. reflexivity. Qed.

Lemma classify_step_sound (acc : AlertSets) (p : Patient) (id : value) :
  in_alerts id (classify_step acc p) ->
  in_alerts id acc \/ (patient_id p = id /\ truthy id = true).
Proof.
  unfold classify_step, in_alerts.
  destruct (truthy (patient_id p)) eqn:Ht; cbn [negb]; [|tauto].
  cbn [highRisk fever dataIssues].
  destruct (4 <=? totalRiskScore p), (isFeverPatient p),
    (hasDataQualityIssue p);
    intros [H|[H|H]];
    try (apply set_add_In in H; destruct H as [H|H]; [|subst id]);
    tauto.
Qed.

Lemma classify_fold_sound (ps : list Patient) :
  forall (acc : AlertSets) (id : value),
    in_alerts id (fold_left classify_step ps acc) ->
    in_alerts id acc \/
    exists p, In p ps /\ patient_id p = id /\ truthy id = true.
Proof.
  induction ps as [|p ps IH]; intros acc id H; cbn in H; [left; exact H|].
  apply IH in H. destruct H as [H|[q [Hin Hq]]].
  - apply classify_step_sound in H. destruct H as [H|H]; [left; exact H|].
    right. exists p. split; [left; reflexivity | exact H].
  - right. exists q. split; [right; exact Hin | exact Hq].
Qed.

(** C3, as stated, fails: the parsed object [{"patient_id": 7, "age": 40}]
    passes the filter of [fetchAllPatients], its identifier is truthy, and
    the number 7, which is no string, lands in a set. *)
Lemma numeric_identifier_reaches_alert_set :
  as_patient numbered_record
    = Some [("patient_id", Num (Finite 7)); ("age", Num (Finite 40))] /\
  truthy (Num (Finite 7)) = true /\
  dataIssues (classify (push_patients [] [numbered_record]))
    = [Num (Finite 7)] /\
  ~ non_empty_string (Num (Finite 7)).
Proof.
  split; [vm_compute; reflexivity|].
  split; [reflexivity|].
  split; [vm_compute; reflexivity|].
  intros [s [H _]]. discriminate H.
Qed.

(** C3, amended.  Every identifier in an alert set is the [patient_id] of a
    processed record and is truthy, hence non-empty whenever it is a string;
    a record whose [patient_id] is missing, [null], the empty string or
    otherwise falsy leaves all three sets as they were. *)
Theorem alert_identifiers_are_truthy_patient_ids (patients : list Patient) :
  (forall id, in_alerts id (classify patients) ->
     exists p, In p patients /\ patient_id p = id /\ truthy id = true /\
               (forall s, id = Str s -> non_empty_string id)) /\
  (forall acc p, truthy (patient_id p) = false ->
     classify_step acc p = acc) /\
  (forall acc p, has_key "patient_id" p = false ->
     classify_step acc p = acc).
Proof.
  split; [|split].
  - intros id H. apply classify_fold_sound in H.
    destruct H as [[H|[H|H]]|[p [Hin [Hid Ht]]]]; try contradiction.
    exists p. split; [exact Hin|]. split; [exact Hid|].
    split; [exact Ht|].
    intros s Hs. exists s. split; [exact Hs|].
    rewrite Hs in Ht. apply truthy_Str. exact Ht.
  - intros acc p. apply classify_step_skips.
  - intros acc p H. apply classify_step_skips.
    unfold patient_id. rewrite (lookup_absent _ _ H). reflexivity.
Qed.

Lemma alert_identifiers_are_truthy_patient_ids_witness :
  exists p,
    In p [record (Str "A7") (Str "150/95") (Str "102") (Str "70")] /\
    patient_id p = Str "A7" /\ truthy (Str "A7") = true /\
    (forall s, Str "A7" = Str s -> non_empty_string (Str "A7")).
Proof.
  apply (proj1 (alert_identifiers_are_truthy_patient_ids
                  [record (Str "A7") (Str "150/95") (Str "102") (Str "70")])).
  left. vm_compute. left. reflexivity.
Defined.

(** *** High-risk threshold *)

Lemma highRisk_fold (ps : list Patient) :
  forall (acc : AlertSets) (s : string),
    In (Str s) (highRisk (fold_left classify_step ps acc)) <->
    In (Str s) (highRisk acc) \/
    exists p, In p ps /\ patient_id p = Str s /\ s <> "" /\
              4 <= totalRiskScore p.
Proof.
  induction ps as [|p ps IH]; intros acc s; cbn [fold_left].
  - split; [tauto|]. intros [H|[p [[] _]]]. exact H.
  - rewrite IH. unfold classify_step at 1.
    destruct (truthy (patient_id p)) eqn:Ht; cbn [negb].
    + cbn [highRisk]. destruct (Z.leb_spec 4 (totalRiskScore p)) as [Hge|Hlt].
      * rewrite set_add_In_Str. split.
        -- intros [[H|H]|[q [Hin Hq]]].
           ++ left. exact H.
           ++ right. exists p. split; [left; reflexivity|].
              split; [exact H|]. split; [|exact Hge].
              apply truthy_Str. rewrite <- H. exact Ht.
           ++ right. exists q. split; [right; exact Hin | exact Hq].
        -- intros [H|[q [[Hin|Hin] Hq]]].
           ++ left. left. exact H.
           ++ subst q. left. right. apply Hq.
           ++ right. exists q. split; [exact Hin | exact Hq].
      * split.
        -- intros [H|[q [Hin Hq]]]; [left; exact H|].
           right. exists q. split; [right; exact Hin | exact Hq].
        -- intros [H|[q [[Hin|Hin] Hq]]]; [left; exact H| |].
           ++ subst q. lia.
           ++ right. exists q. split; [exact Hin | exact Hq].
    + split.
      * intros [H|[q [Hin Hq]]]; [left; exact H|].
        right. exists q. split; [right; exact Hin | exact Hq].
      * intros [H|[q [[Hin|Hin] Hq]]]; [left; exact H| |].
        -- subst q. destruct Hq as (Hid & Hne & _).
           rewrite Hid in Ht. apply truthy_Str in Hne. congruence.
        -- right. exists q. split; [exact Hin | exact Hq].
Qed.

(** C8.  Processing a record that has an identifier adds the identifier to
    [high_risk] when its total is at least 4 and leaves [high_risk] alone
    when it is below 4; over a whole run a string identifier is in
    [high_risk] exactly when some processed record carries it with a total
    of at least 4. *)
Theorem high_risk_iff_total_at_least_4 (acc : AlertSets) (p : Patient) :
  truthy (patient_id p) = true ->
  totalRiskScore p
    = bloodPressureScore (blood_pressure p)
      + temperatureScore (temperature p) + ageScore (age p) /\
  (4 <= totalRiskScore p ->
     highRisk (classify_step acc p) = set_add (patient_id p) (highRisk acc)) /\
  (totalRiskScore p < 4 ->
     highRisk (classify_step acc p) = highRisk acc) /\
  (forall patients s,
     In (Str s) (highRisk (classify patients)) <->
     exists q, In q patients /\ patient_id q = Str s /\ s <> "" /\
               4 <= totalRiskScore q).
Proof.
  intros Ht. split; [reflexivity|].
  unfold classify_step. rewrite Ht. cbn [negb highRisk].
  split; [|split].
  - intros H. apply Z.leb_le in H. rewrite H. reflexivity.
  - intros H. apply Z.leb_gt in H. rewrite H. reflexivity.
  - intros patients s. unfold classify. rewrite highRisk_fold.
    cbn. tauto.
Qed.

Lemma high_risk_iff_total_at_least_4_witness :
  totalRiskScore (record (Str "T3") (Str "135/70") (Str "98.6") Null) = 3 /\
  highRisk (classify_step no_alerts
              (record (Str "T3") (Str "135/70") (Str "98.6") Null)) = [] /\
  totalRiskScore (record (Str "T4") (Str "135/70") (Str "98.6") (Str "50"))
    = 4 /\
  highRisk (classify_step no_alerts
              (record (Str "T4") (Str "135/70") (Str "98.6") (Str "50")))
    = [Str "T4"].
Proof.
  split; [vm_compute; reflexivity|].
  split.
  { apply (proj2 (high_risk_iff_total_at_least_4 no_alerts
                    (record (Str "T3") (Str "135/70") (Str "98.6") Null)
                    eq_refl)).
    vm_compute. reflexivity. }
  split; [vm_compute; reflexivity|].
  apply (proj2 (high_risk_iff_total_at_least_4 no_alerts
                  (record (Str "T4") (Str "135/70") (Str "98.6") (Str "50"))
                  eq_refl)).
  vm_compute. discriminate.
Defined.

(** *** The order of strings *)

Lemma ascii_compare_spec (x y : ascii) :
  CompareSpec (x = y) (N_of_ascii x < N_of_ascii y)%N
    (N_of_ascii y < N_of_ascii x)%N (Ascii.compare x y).
Proof.
  unfold Ascii.compare.
  destruct (N.compare_spec (N_of_ascii x) (N_of_ascii y)) as [H|H|H];
    constructor; auto.
  rewrite <- (ascii_N_embedding x), <- (ascii_N_embedding y), H.
  reflexivity.
Qed.

Lemma string_leb_trans (a : string) :
  forall b c : string,
    (a <=? b)%string = true -> (b <=? c)%string = true ->
    (a <=? c)%string = true.
Proof.
  induction a as [|x a IH]; intros [|y b] [|z c]; cbn;
    try reflexivity; try discriminate.
  unfold String.leb in *. cbn.
  destruct (ascii_compare_spec x y), (ascii_compare_spec y z),
    (ascii_compare_spec x z); subst;
    try reflexivity; try discriminate; try lia; intros Hab Hbc.
  exact (IH b c Hab Hbc).
Qed.

Lemma string_ltb_of_leb (a b : string) :
  (a <=? b)%string = true -> a <> b -> (a <? b)%string = true.
Proof.
  unfold String.leb, String.ltb. intros Hle Hne.
  destruct (String.compare a b) eqn:E; try reflexivity; try discriminate.
  apply String.compare_eq_iff in E. contradiction.
Qed.

Section SortedOutput.

Variable ToStringOther : value -> string.

Lemma sortLe_total (a b : value) :
  sort_le ToStringOther a b \/ sort_le ToStringOther b a.
Proof.
  unfold sort_le, sortLe.
  destruct a, b; auto; apply String.leb_total.
Qed.

Lemma sortLe_trans (a b c : value) :
  sort_le ToStringOther a b -> sort_le ToStringOther b c ->
  sort_le ToStringOther a c.
Proof.
  unfold sort_le, sortLe.
  destruct a, b, c; try reflexivity; try discriminate;
    apply string_leb_trans.
Qed.

Lemma insert_Forall (P : value -> Prop) (x : value) (l : list value) :
  P x -> Forall P l -> Forall P (insert ToStringOther x l).
Proof.
  intros Hx. induction l as [|y l IH]; intros Hl; cbn.
  - constructor; [exact Hx | constructor].
  - inversion Hl; subst.
    destruct (sortLe ToStringOther x y); constructor; auto.
Qed.

Lemma insert_Permutation (x : value) (l : list value) :
  Permutation (x :: l) (insert ToStringOther x l).
Proof.
  induction l as [|y l IH]; cbn; [apply Permutation_refl|].
  destruct (sortLe ToStringOther x y); [apply Permutation_refl|].
  apply perm_trans with (y :: x :: l); [apply perm_swap|].
  apply perm_skip. exact IH.
Qed.

Lemma insert_sorted (x : value) (l : list value) :
  StronglySorted (sort_le ToStringOther) l ->
  StronglySorted (sort_le ToStringOther) (insert ToStringOther x l).
Proof.
  induction 1 as [|y l Hs IH Hy]; cbn.
  - constructor; constructor.
  - destruct (sortLe ToStringOther x y) eqn:E.
    + constructor; [constructor; assumption|].
      constructor; [exact E|].
      eapply Forall_impl; [|exact Hy].
      intros z Hz. exact (sortLe_trans x y z E Hz).
    + constructor; [exact IH|].
      apply insert_Forall; [|exact Hy].
      destruct (sortLe_total x y) as [H|H]; [|exact H].
      unfold sort_le in H. congruence.
Qed.

Lemma sort_Forall (P : value -> Prop) (l : list value) :
  Forall P l -> Forall P (sort ToStringOther l).
Proof.
  induction 1 as [|x l Hx Hl IH]; cbn; [constructor|].
  apply insert_Forall; assumption.
Qed.

Lemma sort_Permutation (l : list value) :
  Permutation l (sort ToStringOther l).
Proof.
  induction l as [|x l IH]; cbn; [constructor|].
  apply perm_trans with (x :: sort ToStringOther l).
  - apply perm_skip. exact IH.
  - apply insert_Permutation.
Qed.

Lemma sort_sorted (l : list value) :
  StronglySorted (sort_le ToStringOther) (sort ToStringOther l).
Proof.
  induction l as [|x l IH]; cbn; [constructor|].
  apply insert_sorted. exact IH.
Qed.

End SortedOutput.

(** *** Set insertion never duplicates *)

Lemma sameValueZero_sym (a b : value) :
  sameValueZero a b = sameValueZero b a.
Proof.
  destruct a as [| |x|[| | |x]|x|x|x], b as [| |y|[| | |y]|y|y|y];
    cbn; try reflexivity.
  - destruct x, y; reflexivity.
  - destruct (Qeq_bool x y) eqn:E, (Qeq_bool y x) eqn:F; try reflexivity.
    + apply Qeq_bool_iff in E. symmetry in E.
      apply Qeq_bool_iff in E. congruence.
    + apply Qeq_bool_iff in F. symmetry in F.
      apply Qeq_bool_iff in F. congruence.
  - apply String.eqb_sym.
Qed.

Lemma distinct_snoc (s : list value) (x : value) :
  distinct s -> Forall (fun y => sameValueZero y x = false) s ->
  distinct (s ++ [x]).
Proof.
  unfold distinct. induction 1 as [|a s Ha Hs IH]; intros Hx; cbn.
  - constructor; constructor.
  - inversion Hx; subst. constructor.
    + apply Forall_app. split; [exact Ha|]. constructor; [assumption|].
      constructor.
    + apply IH. assumption.
Qed.

Lemma set_add_distinct (x : value) (s : list value) :
  distinct s -> distinct (set_add x s).
Proof.
  intros Hs. unfold set_add. destruct (set_has x s) eqn:E; [exact Hs|].
  apply distinct_snoc; [exact Hs|].
  apply Forall_forall. intros y Hy.
  rewrite sameValueZero_sym.
  destruct (sameValueZero x y) eqn:F; [|reflexivity].
  assert (set_has x s = true); [|congruence].
  apply existsb_exists. exists y. split; assumption.
Qed.

Lemma classify_step_distinct (acc : AlertSets) (p : Patient) :
  all_distinct acc -> all_distinct (classify_step acc p).
Proof.
  unfold all_distinct, classify_step. intros (Hh & Hf & Hd).
  destruct (truthy (patient_id p)); cbn [negb]; [|tauto].
  cbn [highRisk fever dataIssues].
  destruct (4 <=? totalRiskScore p), (isFeverPatient p),
    (hasDataQualityIssue p);
    repeat split; try assumption; apply set_add_distinct; assumption.
Qed.

Lemma classify_distinct (patients : list Patient) :
  all_distinct (classify patients).
Proof.
  unfold classify.
  assert (H : all_distinct no_alerts) by (repeat split; constructor).
  revert H. generalize no_alerts.
  induction patients as [|p ps IH]; intros acc H; cbn; [exact H|].
  apply IH. apply classify_step_distinct. exact H.
Qed.

Lemma insert_distinct (T : value -> string) (x : value) (l : list value) :
  Forall (fun y => sameValueZero x y = false) l -> distinct l ->
  distinct (insert T x l).
Proof.
  unfold distinct. intros Hx Hl. revert Hx.
  induction Hl as [|y l Hy Hl IH]; intros Hx; cbn.
  - constructor; constructor.
  - inversion Hx; subst.
    destruct (sortLe T x y).
    + constructor; [exact Hx|]. constructor; assumption.
    + constructor.
      * apply insert_Forall; [|exact Hy].
        rewrite sameValueZero_sym. assumption.
      * apply IH. assumption.
Qed.

Lemma sort_distinct (T : value -> string) (l : list value) :
  distinct l -> distinct (sort T l).
Proof.
  induction 1 as [|x l Hx Hl IH]; cbn; [constructor|].
  apply insert_distinct; [|exact IH].
  apply sort_Forall. exact Hx.
Qed.

Lemma strings_of_In (t : string) (l : list value) :
  In t (strings_of l) -> In (Str t) l.
Proof.
  unfold strings_of. rewrite in_flat_map.
  intros [v [Hv Ht]]. destruct v; cbn in Ht; try contradiction.
  destruct Ht as [Ht|[]]. subst. exact Hv.
Qed.

Lemma strings_strictly_ascending (T : value -> string) (l : list value) :
  StronglySorted (sort_le T) l -> distinct l ->
  StronglySorted (fun a b => (a <? b)%string = true) (strings_of l).
Proof.
  unfold distinct.
  induction 1 as [|a l Hs IH Ha]; intros Hd; cbn; [constructor|].
  inversion Hd as [|? ? Hda Hdl]; subst.
  specialize (IH Hdl).
  destruct a; cbn; try exact IH.
  constructor; [exact IH|].
  apply Forall_forall. intros t Ht. apply strings_of_In in Ht.
  rewrite Forall_forall in Ha, Hda.
  specialize (Ha _ Ht). specialize (Hda _ Ht).
  unfold sort_le in Ha. cbn in Ha, Hda.
  apply string_ltb_of_leb; [exact Ha|].
  apply String.eqb_neq. exact Hda.
Qed.

Lemma sort_finalizes (T : value -> string) (l : list value) :
  distinct l -> sorted_without_duplicates T (sort T l).
Proof.
  intros Hd. unfold sorted_without_duplicates.
  assert (Hs := sort_sorted T l).
  assert (Hd' := sort_distinct T l Hd).
  split; [exact Hs|]. split; [exact Hd'|].
  apply (strings_strictly_ascending T); assumption.
Qed.

(** Adding an element a second time changes nothing. *)
Lemma set_add_idempotent (x : value) (s : list value) :
  sameValueZero x x = true -> set_add x (set_add x s) = set_add x s.
Proof.
  intros Hx. destruct (set_has x s) eqn:E.
  - assert (H : set_add x s = s) by (unfold set_add; rewrite E; reflexivity).
    rewrite !H. reflexivity.
  - assert (H : set_add x s = (s ++ [x])%list)
      by (unfold set_add; rewrite E; reflexivity).
    rewrite H. unfold set_add, set_has. rewrite existsb_app. cbn.
    rewrite Hx, orb_true_r. reflexivity.
Qed.

(** *** Entries that read the same *)

Lemma same_value_primitive (a b : value) :
  primitive a = true -> same_value a b = sameValueZero a b.
Proof.
  destruct a as [| |x|x|x|x|x]; try discriminate; intros _;
    destruct b as [| |y|y|y|y|y]; try reflexivity;
    repeat match goal with
           | n : number |- _ => destruct n
           end; reflexivity.
Qed.

Lemma distinct_nth (l : list value) :
  distinct l ->
  forall i j a b,
    (i < j)%nat -> nth_error l i = Some a -> nth_error l j = Some b ->
    sameValueZero a b = false.
Proof.
  unfold distinct. induction 1 as [|x l Hx Hl IH]; intros i j a b Hij Ha Hb.
  - destruct i; discriminate.
  - destruct j as [|j]; [lia|]. cbn in Hb. destruct i as [|i].
    + cbn in Ha. inversion Ha; subst.
      rewrite Forall_forall in Hx. apply Hx.
      eapply nth_error_In. exact Hb.
    + cbn in Ha. apply (IH i j); [lia | assumption..].
Qed.

Lemma distinct_primitives_listed_once (l : list value) :
  distinct l -> primitives_listed_once l.
Proof.
  intros Hd i j a b Ha Hb Hij Hp.
  rewrite (same_value_primitive _ _ Hp).
  destruct (Nat.lt_ge_cases i j) as [Hlt|Hge].
  - apply (distinct_nth l Hd i j); assumption.
  - rewrite sameValueZero_sym.
    apply (distinct_nth l Hd j i); [lia | assumption..].
Qed.

Lemma all_primitive_no_duplicates (l : list value) :
  Forall (fun v => primitive v = true) l ->
  primitives_listed_once l -> no_duplicates l.
Proof.
  intros Hall H i j a b Ha Hb Hij.
  apply (H i j); try assumption.
  rewrite Forall_forall in Hall. apply Hall.
  eapply nth_error_In. exact Ha.
Qed.

Lemma sort_finalized (T : value -> string) (l : list value) :
  distinct l -> finalized T l (sort T l).
Proof.
  intros Hd. destruct (sort_finalizes T l Hd) as (Hs & Hd' & Hstr).
  split; [apply sort_Permutation|]. split; [exact Hs|].
  split; [exact Hstr|]. apply distinct_primitives_listed_once. exact Hd'.
Qed.

(** The entries of the alert sets are identifiers of the records. *)
Lemma alerts_primitive (patients : list Patient) (id : value) :
  Forall (fun p => primitive (patient_id p) = true) patients ->
  in_alerts id (classify patients) -> primitive id = true.
Proof.
  intros Hall H. apply classify_fold_sound in H.
  destruct H as [[H|[H|H]]|[p [Hin [Hid _]]]]; try contradiction.
  rewrite Forall_forall in Hall. rewrite <- Hid. apply Hall. exact Hin.
Qed.

(** C9, as stated, fails: two records carry the array [[1]] as identifier
    and nothing else, so both are flagged; the two arrays are different
    references, the set keeps both, and the submitted list reads
    [[[1],[1]]]. *)
Lemma array_identifier_listed_twice :
  let out := submission (fun _ => "1") (classify array_id_twice) in
  data_quality_issues out = [Arr [json_number 1]; Arr [json_number 1]] /\
  same_value (Arr [json_number 1]) (Arr [json_number 1]) = true /\
  ~ no_duplicates (data_quality_issues out).
Proof.
  cbv zeta. split; [vm_compute; reflexivity|].
  split; [vm_compute; reflexivity|].
  intros H.
  specialize (H 0%nat 1%nat (Arr [json_number 1]) (Arr [json_number 1])
                ltac:(vm_compute; reflexivity) ltac:(vm_compute; reflexivity)
                ltac:(discriminate)).
  vm_compute in H. discriminate H.
Qed.

(** C9, amended.  For every run, each of the three submitted lists holds
    exactly the members of its set, ascending in the order of [sort] (by
    string conversion; the strings among them strictly ascending code unit
    by code unit), and no string, number or boolean identifier twice,
    however many records carry it; adding such an identifier to a set a
    second time leaves the set as it is.  When every record carries such
    an identifier the lists have no duplicates at all.  Identifiers that
    are arrays or objects are compared by reference and can be listed more
    than once. *)
Theorem submitted_lists_sorted_without_duplicates
    (ToStringOther : value -> string) (patients : list Patient) :
  let sets := classify patients in
  let out := submission ToStringOther sets in
  (forall id s, primitive id = true ->
                set_add id (set_add id s) = set_add id s) /\
  finalized ToStringOther (highRisk sets) (high_risk_patients out) /\
  finalized ToStringOther (fever sets) (fever_patients out) /\
  finalized ToStringOther (dataIssues sets) (data_quality_issues out) /\
  (Forall (fun p => primitive (patient_id p) = true) patients ->
   no_duplicates (high_risk_patients out) /\
   no_duplicates (fever_patients out) /\
   no_duplicates (data_quality_issues out)).
Proof.
  cbn zeta. destruct (classify_distinct patients) as (Hh & Hf & Hd).
  unfold submission. cbn [high_risk_patients fever_patients data_quality_issues].
  split.
  { intros id s Hp. apply set_add_idempotent.
    rewrite <- (same_value_primitive _ _ Hp).
    destruct id as [| |x|[| | |x]|x|x|x]; try discriminate Hp;
      try reflexivity; cbn.
    - destruct x; reflexivity.
    - apply Qeq_bool_refl.
    - apply String.eqb_refl. }
  split; [apply sort_finalized; exact Hh|].
  split; [apply sort_finalized; exact Hf|].
  split; [apply sort_finalized; exact Hd|].
  intros Hall.
  assert (Hprim : forall l,
             (forall id, In id l -> in_alerts id (classify patients)) ->
             distinct l -> no_duplicates (sort ToStringOther l)).
  { intros l Hin Hl. apply all_primitive_no_duplicates.
    - apply sort_Forall. apply Forall_forall. intros id Hid.
      apply (alerts_primitive patients id Hall). apply Hin. exact Hid.
    - apply distinct_primitives_listed_once, sort_distinct. exact Hl. }
  split; [|split]; apply Hprim; try assumption; intros id Hid;
    unfold in_alerts; tauto.
Qed.

(** Three records, two of them with the identifier [P9]: no list names an
    identifier twice. *)
Lemma submitted_lists_sorted_without_duplicates_witness :
  let patients :=
    [record (Str "P9") (Str "150/95") (Str "102") (Str "70");
     record (Str "P10") Null (Str "101") (Str "30");
     record (Str "P9") (Str "150/95") (Str "102") (Str "70")] in
  set_add (Str "P9") (set_add (Str "P9") []) = set_add (Str "P9") [] /\
  no_duplicates
    (fever_patients (submission (fun _ => "") (classify patients))).
Proof.
  cbv zeta.
  destruct (submitted_lists_sorted_without_duplicates (fun _ => "")
              [record (Str "P9") (Str "150/95") (Str "102") (Str "70");
               record (Str "P10") Null (Str "101") (Str "30");
               record (Str "P9") (Str "150/95") (Str "102") (Str "70")])
    as (Hadd & _ & _ & _ & Hno).
  split; [apply Hadd; reflexivity|].
  apply Hno. repeat constructor.
Defined.

(** The same identifier on two pages is listed once, and the lists come out
    in ascending order. *)
Example duplicate_identifier_listed_once :
  submission (fun _ => "")
    (classify [record (Str "P9") (Str "150/95") (Str "102") (Str "70");
               record (Str "P10") Null (Str "101") (Str "30");
               record (Str "P9") (Str "150/95") (Str "102") (Str "70")])
  = mkSubmissionBody [Str "P9"] [Str "P10"; Str "P9"] [Str "P10"].
Proof. vm_compute. reflexivity. Qed.

(** ** Rounding to a double *)

Lemma round64_steps (q : Q) :
  round64 q =
  let n := Qnum q in
  let d := Zpos (Qden q) in
  if n =? 0 then Finite 0 else
  let e := r64_e (Z.abs n) d in
  let u := Z.max e (-1022) - 52 in
  let m := r64_m (Z.abs n) d u in
  if (1024 <=? e) || ((u =? 971) && (m =? 2 ^ 53)) then
    if n <? 0 then NegInfinity else PosInfinity
  else
    Finite (if 0 <=? u then inject_Z (Z.sgn n * m * 2 ^ u)
            else Qred (Qmake (Z.sgn n * m) (Z.to_pos (2 ^ (- u))))).
Proof. reflexivity. Qed.

(** The mantissa is within half a unit of the exact quotient. *)
Lemma r64_m_bounds (a d u : Z) :
  0 <= a -> 0 < d -> u < 0 ->
  0 <= r64_m a d u /\
  2 * d * r64_m a d u <= 2 * a * 2 ^ (- u) + d.
Proof.
  intros Ha Hd Hu. unfold r64_m.
  replace (0 <=? u) with false by (symmetry; apply Z.leb_gt; lia).
  assert (Hk : 0 < 2 ^ (- u)) by (apply Z.pow_pos_nonneg; lia).
  set (num := a * 2 ^ (- u)).
  assert (Hnum : 0 <= num) by (subst num; nia).
  pose proof (Z.div_mod num d ltac:(lia)) as Hdm.
  pose proof (Z.mod_pos_bound num d Hd) as Hr.
  assert (Hfl : 0 <= num / d) by (apply Z.div_pos; lia).
  replace (2 * a * 2 ^ (- u)) with (2 * num) by (subst num; ring).
  set (fl := num / d) in *. set (r := num mod d) in *.
  destruct (Z.compare_spec (2 * r) d) as [E|E|E];
    [destruct (Z.even fl)| |]; split; nia.
Qed.

Lemma r64_e_below (a d c : Z) :
  0 < a -> 0 < d -> 0 <= c -> a < d * 2 ^ (c + 1) -> r64_e a d <= c.
Proof.
  intros Ha Hd Hc Hlt. unfold r64_e.
  pose proof (Z.log2_spec a Ha) as [La Ua].
  pose proof (Z.log2_spec d Hd) as [Ld Ud].
  pose proof (Z.log2_nonneg a). pose proof (Z.log2_nonneg d).
  set (la := Z.log2 a) in *. set (ld := Z.log2 d) in *.
  assert (Hpow : 2 ^ la < 2 ^ (ld + c + 2)).
  { replace (ld + c + 2) with (Z.succ ld + (c + 1)) by lia.
    rewrite Z.pow_add_r by lia.
    assert (0 < 2 ^ (c + 1)) by (apply Z.pow_pos_nonneg; lia). nia. }
  apply Z.pow_lt_mono_r_iff in Hpow; [|lia|lia].
  destruct (Z.eq_dec (la - ld) (c + 1)) as [E|E].
  - rewrite E.
    replace (0 <=? c + 1) with true by (symmetry; apply Z.leb_le; lia).
    replace (d * 2 ^ (c + 1) <=? a) with false
      by (symmetry; apply Z.leb_gt; lia).
    lia.
  - destruct (if 0 <=? la - ld then d * 2 ^ (la - ld) <=? a
              else d <=? a * 2 ^ (- (la - ld))); lia.
Qed.

(** A quantity from 0 up to [150 * (1 - 2^-53)] rounds to a double from 0
    to below 150. *)
Lemma round64_below_150 (q : Q) :
  (0 <= q)%Q -> (q <= 150 * below_one)%Q ->
  exists v, round64 q = Finite v /\ (0 <= v)%Q /\ (v < 150)%Q.
Proof.
  intros H0 Hq. rewrite round64_steps. cbv zeta.
  destruct q as [n d]. cbn [Qnum Qden].
  destruct (Z.eqb_spec n 0) as [E|E].
  - exists 0%Q. split; [reflexivity|]. split; [lra | reflexivity].
  - assert (Hn : 0 < n) by (unfold Qle in H0; cbn in H0; lia).
    rewrite Z.abs_eq by lia.
    assert (Hbound : n * 9007199254740992
                     <= 150 * 9007199254740991 * Z.pos d).
    { unfold below_one, Qle, Qmult, Qminus, Qplus, Qopp in Hq.
      cbn in Hq. lia. }
    assert (Hlt : n < Z.pos d * 2 ^ (7 + 1)) by (cbn; lia).
    pose proof (r64_e_below n (Z.pos d) 7 Hn ltac:(lia) ltac:(lia) Hlt)
      as He.
    set (e := r64_e n (Z.pos d)) in *.
    set (u := Z.max e (-1022) - 52).
    assert (Hu : u <= -45) by (subst u; lia).
    replace (1024 <=? e) with false by (symmetry; apply Z.leb_gt; lia).
    replace (u =? 971) with false by (symmetry; apply Z.eqb_neq; lia).
    replace (0 <=? u) with false by (symmetry; apply Z.leb_gt; lia).
    cbn [orb andb].
    destruct (r64_m_bounds n (Z.pos d) u ltac:(lia) ltac:(lia) ltac:(lia))
      as [Hm0 Hm].
    set (m := r64_m n (Z.pos d) u) in *.
    rewrite Z.sgn_pos by lia. rewrite Z.mul_1_l.
    eexists. split; [reflexivity|].
    assert (Hk : 2 ^ 45 <= 2 ^ (- u)) by (apply Z.pow_le_mono_r; lia).
    rewrite !Qred_correct. unfold Qle, Qlt. cbn [Qnum Qden inject_Z].
    rewrite Z2Pos.id by lia.
    split; [lia|].
    change (2 ^ 45) with 35184372088832 in Hk.
    nia.
Qed.

Lemma r64_e_integer (n : Z) : 0 < n -> r64_e n 1 = Z.log2 n.
Proof.
  intros Hn. unfold r64_e. change (Z.log2 1) with 0. rewrite Z.sub_0_r.
  pose proof (Z.log2_nonneg n). pose proof (Z.log2_spec n Hn) as [L _].
  replace (0 <=? Z.log2 n) with true by (symmetry; apply Z.leb_le; lia).
  replace (1 * 2 ^ Z.log2 n <=? n) with true
    by (symmetry; apply Z.leb_le; lia).
  reflexivity.
Qed.

Lemma r64_m_exact (a u : Z) :
  0 <= a -> u <= 0 -> r64_m a 1 u = a * 2 ^ (- u).
Proof.
  intros Ha Hu. unfold r64_m.
  destruct (Z.leb_spec 0 u) as [H|H].
  - assert (u = 0) by lia. subst u. change (2 ^ (- 0)) with 1.
    change (1 * 2 ^ 0) with 1. rewrite Z.div_1_r, Z.mod_1_r. cbn. lia.
  - rewrite Z.div_1_r, Z.mod_1_r. reflexivity.
Qed.

Lemma Qred_inject_Z (n : Z) : Qred (inject_Z n) = inject_Z n.
Proof.
  unfold Qred, inject_Z.
  pose proof (Z.ggcd_gcd n 1) as Hg.
  pose proof (Z.ggcd_correct_divisors n 1) as Hd.
  destruct (Z.ggcd n 1) as [g [nn dd]]. cbn in Hg, Hd.
  rewrite Z.gcd_1_r in Hg. subst g. destruct Hd as [Hn Hdd].
  rewrite !Z.mul_1_l in *. subst. reflexivity.
Qed.

(** A whole number from 0 to below 2^53 is a double. *)
Lemma round64_integer (n : Z) :
  0 <= n < 2 ^ 53 -> round64 (inject_Z n) = of_int n.
Proof.
  intros [H0 H53]. unfold of_int. rewrite round64_steps. cbv zeta.
  cbn [Qnum Qden inject_Z].
  destruct (Z.eqb_spec n 0) as [E|E]; [subst; reflexivity|].
  assert (Hn : 0 < n) by lia.
  rewrite Z.abs_eq by lia. rewrite r64_e_integer by lia.
  assert (HL : 0 <= Z.log2 n < 53).
  { split; [apply Z.log2_nonneg|]. apply Z.log2_lt_pow2; lia. }
  rewrite Z.max_l by lia.
  set (u := Z.log2 n - 52).
  rewrite r64_m_exact by (subst u; lia).
  replace (1024 <=? Z.log2 n) with false by (symmetry; apply Z.leb_gt; lia).
  replace (u =? 971) with false by (symmetry; apply Z.eqb_neq; subst u; lia).
  cbn [orb andb]. rewrite Z.sgn_pos by lia. rewrite Z.mul_1_l.
  f_equal. destruct (Z.leb_spec 0 u) as [H|H].
  - assert (u = 0) by (subst u; lia).
    replace u with 0 by lia. cbn. rewrite !Z.mul_1_r. reflexivity.
  - assert (Hk : 0 < 2 ^ (- u)) by (apply Z.pow_pos_nonneg; lia).
    transitivity (Qred (inject_Z n)).
    + apply Qred_complete. unfold Qeq. cbn [Qnum Qden inject_Z].
      rewrite Z2Pos.id by lia. ring.
    + apply Qred_inject_Z.
Qed.

(** ** The waits *)

(** For a value of [Math.random], a double in [0, 1), the jitter is a
    whole number from 0 to 149. *)
Lemma jitter_bounds (r : Q) :
  (0 <= r)%Q -> (r <= below_one)%Q ->
  exists jit, 0 <= jit < 150 /\ jitter_of r = of_int jit.
Proof.
  intros H0 H1. unfold jitter_of, num_mul, of_int.
  destruct (round64_below_150 (r * inject_Z 150)) as (v & E & Hv0 & Hv1).
  - change (inject_Z 150) with 150%Q. lra.
  - change (inject_Z 150) with 150%Q.
    unfold below_one in *. lra.
  - rewrite E. cbn [Math_floor]. exists (Qfloor v). split; [|reflexivity].
    split.
    + change 0 with (Qfloor 0). apply Qfloor_resp_le. exact Hv0.
    + rewrite Zlt_Qlt.
      apply Qle_lt_trans with v; [apply Qfloor_le|].
      change (inject_Z 150) with 150%Q. exact Hv1.
Qed.

Lemma Math_pow2_exact (a : Z) :
  0 <= a <= 52 -> Math_pow2 a = of_int (2 ^ a).
Proof.
  intros Ha. unfold Math_pow2.
  replace (a <? 0) with false by (symmetry; apply Z.ltb_ge; lia).
  apply round64_integer. split; [apply Z.pow_nonneg; lia|].
  apply Z.pow_lt_mono_r; lia.
Qed.

(** In the range where every intermediate value is a whole number below
    2^53 the wait is [baseDelayMs * 2^attempt + jitter] exactly. *)
Lemma wait_of_exact (B a jit : Z) :
  0 <= B -> 0 <= a <= 52 -> 0 <= jit < 150 ->
  B * 2 ^ a + 150 <= 2 ^ 53 ->
  wait_of (of_int B) a (of_int jit) = of_int (B * 2 ^ a + jit).
Proof.
  intros HB Ha Hj Hfit. unfold wait_of. rewrite Math_pow2_exact by lia.
  assert (Hp : 0 < 2 ^ a) by (apply Z.pow_pos_nonneg; lia).
  unfold num_mul, of_int.
  change (inject_Z B * inject_Z (2 ^ a))%Q with (inject_Z (B * 2 ^ a)).
  rewrite round64_integer by nia.
  unfold num_add, of_int.
  replace (inject_Z (B * 2 ^ a) + inject_Z jit)%Q
    with (inject_Z (B * 2 ^ a + jit))
    by (unfold Qplus, inject_Z; cbn; rewrite !Z.mul_1_r; reflexivity).
  apply round64_integer. nia.
Qed.

Lemma wait_after_exact (net : Network) (B : Z) (w : World) (a : Z)
    (i : nat) :
  (forall j, 0 <= random net j /\ random net j <= below_one)%Q ->
  0 <= B -> 0 <= a <= 52 -> B * 2 ^ a + 150 <= 2 ^ 53 ->
  exists jit,
    0 <= jit < 150 /\
    jitter_of (random net (draws w + i)) = of_int jit /\
    wait_after net (of_int B) w a i = of_int (B * 2 ^ a + jit).
Proof.
  intros Hr HB Ha Hfit. destruct (Hr (draws w + i)%nat) as [H0 H1].
  destruct (jitter_bounds _ H0 H1) as (jit & Hj & E).
  exists jit. split; [exact Hj|]. split; [exact E|].
  unfold wait_after. rewrite E. apply wait_of_exact; assumption.
Qed.

(** ** Properties of the retrying transport *)


Lemma outcome_error_not_unreachable (o : FetchOutcome) :
  outcome_error o <> Unreachable.
Proof.
  unfold outcome_error. intros H.
  destruct o as [reason|res]; [discriminate H|].
  destruct (retryable (status res)); [discriminate H|].
  destruct (ok res); discriminate H.
Qed.

(** Among the first [n + 1] values of [f] either one is the first that is
    defined or none is. *)
Lemma first_defined {A} (f : nat -> option A) (n : nat) :
  (exists k v, (k <= n)%nat /\ (forall i, (i < k)%nat -> f i = None) /\
               f k = Some v) \/
  (forall i, (i <= n)%nat -> f i = None).
Proof.
  induction n as [|n [(k & v & Hk & Hlt & Hv)|Hnone]].
  - destruct (f 0%nat) as [v|] eqn:E.
    + left. exists 0%nat, v. split; [lia|]. split; [|exact E].
      intros i Hi. lia.
    + right. intros i Hi. assert (i = 0%nat) by lia. subst. exact E.
  - left. exists k, v. split; [lia|]. auto.
  - destruct (f (S n)) as [v|] eqn:E.
    + left. exists (S n), v. split; [lia|]. split; [|exact E].
      intros i Hi. apply Hnone. lia.
    + right. intros i Hi.
      destruct (Nat.eq_dec i (S n)) as [->|Hne]; [exact E|].
      apply Hnone. lia.
Qed.

Section RetryLoop.

Variable net : Network.
Variable url : string.
Variable init : RequestInit.
Variable retries baseDelayMs : number.

(** One iteration: return on a good answer; on any other answer rethrow at
    the last attempt and otherwise wait and go on. *)
Lemma attempt_once_run (attempt : Z) (w : World) :
  attempt_once net url init retries baseDelayMs attempt w =
  let w1 := mkWorld (calls w ++ [(url, init)]) (draws w) (slept w) in
  match outcome_value (answer net url init w 0) with
  | Some v => (inr (Return v), w1)
  | None =>
      if num_eqb (of_int attempt) retries
      then (inl (outcome_error (answer net url init w 0)), w1)
      else (inr Continue,
            mkWorld (calls w1) (S (draws w))
              (slept w ++ [wait_after net baseDelayMs w attempt 0]))
  end.
Proof.
  unfold attempt_once, try_catch, bind, fetch, answer, wait_after,
    outcome_value, outcome_error.
  rewrite !Nat.add_0_r.
  destruct (respond net (List.length (calls w)) url init) as [reason|res].
  - destruct (num_eqb (of_int attempt) retries); reflexivity.
  - destruct (retryable (status res)).
    + destruct (num_eqb (of_int attempt) retries); reflexivity.
    + destruct (ok res); cbn [negb].
      * unfold res_json. destruct (json res); [reflexivity|].
        unfold throw. destruct (num_eqb (of_int attempt) retries);
          reflexivity.
      * unfold throw. destruct (num_eqb (of_int attempt) retries);
          reflexivity.
Qed.

Lemma answer_shift (w w' : World) (i : nat) :
  calls w' = (calls w ++ [(url, init)])%list ->
  answer net url init w' i = answer net url init w (S i).
Proof.
  intros H. unfold answer. rewrite H, length_app. cbn.
  f_equal. lia.
Qed.

Lemma after_failures_step (w w' : World) (attempt : Z) (n : nat) :
  calls w' = (calls w ++ [(url, init)])%list ->
  draws w' = S (draws w) ->
  slept w' = (slept w ++ [wait_after net baseDelayMs w attempt 0])%list ->
  after_failures net url init baseDelayMs w' (attempt + 1) n
  = after_failures net url init baseDelayMs w attempt (S n).
Proof.
  intros Hc Hd Hs. unfold after_failures. rewrite Hc, Hd, Hs. f_equal.
  - rewrite <- app_assoc. reflexivity.
  - lia.
  - rewrite <- app_assoc. f_equal. cbn [seq map app].
    f_equal.
    + unfold wait_after. rewrite Z.add_0_r. reflexivity.
    + rewrite <- seq_shift, map_map. apply map_ext. intros i.
      unfold wait_after. rewrite Hd. f_equal; [lia|].
      do 2 f_equal. lia.
Qed.

Lemma after_failures_then_fetch (w : World) (attempt : Z) (n : nat) :
  let w1 := after_failures net url init baseDelayMs w attempt n in
  mkWorld (calls w1 ++ [(url, init)]) (draws w1) (slept w1)
  = after_retries net url init baseDelayMs w attempt n.
Proof.
  unfold after_failures, after_retries. cbn [calls draws slept].
  f_equal. rewrite <- app_assoc. f_equal.
  rewrite <- repeat_cons. reflexivity.
Qed.

Lemma answer_after_failures (w : World) (attempt : Z) (n i : nat) :
  answer net url init (after_failures net url init baseDelayMs w attempt n) i
  = answer net url init w (n + i).
Proof.
  unfold answer, after_failures. cbn [calls].
  rewrite length_app, repeat_length. f_equal. lia.
Qed.

Lemma retry_loop_S (fuel : nat) (attempt : Z) (w : World) :
  retry_loop net url init retries baseDelayMs (S fuel) attempt w =
  if num_leb (of_int attempt) retries then
    match attempt_once net url init retries baseDelayMs attempt w with
    | (inl e, w') => Some (inl e, w')
    | (inr (Return v), w') => Some (inr v, w')
    | (inr Continue, w') =>
        retry_loop net url init retries baseDelayMs fuel
          (increment attempt) w'
    end
  else Some (inl Unreachable, w).
Proof. reflexivity. Qed.

(** Past the budget the loop is left and the final [throw] runs. *)
Lemma retry_loop_exit (fuel : nat) (attempt : Z) (w : World) :
  num_leb (of_int attempt) retries = false ->
  retry_loop net url init retries baseDelayMs fuel attempt w
  = Some (inl Unreachable, w).
Proof. intros H. destruct fuel; cbn [retry_loop]; rewrite H; reflexivity. Qed.

(** A good answer within the budget is returned. *)
Lemma retry_loop_good (fuel : nat) (attempt : Z) (w : World) (v : value) :
  num_leb (of_int attempt) retries = true ->
  outcome_value (answer net url init w 0) = Some v ->
  retry_loop net url init retries baseDelayMs (S fuel) attempt w
  = Some (inr v, mkWorld (calls w ++ [(url, init)]) (draws w) (slept w)).
Proof.
  intros Hle Hv. rewrite retry_loop_S, Hle, attempt_once_run. cbv zeta.
  rewrite Hv. reflexivity.
Qed.

(** What fails at the last attempt is thrown. *)
Lemma retry_loop_last (fuel : nat) (attempt : Z) (w : World) :
  num_leb (of_int attempt) retries = true ->
  num_eqb (of_int attempt) retries = true ->
  outcome_value (answer net url init w 0) = None ->
  retry_loop net url init retries baseDelayMs (S fuel) attempt w
  = Some (inl (outcome_error (answer net url init w 0)),
          mkWorld (calls w ++ [(url, init)]) (draws w) (slept w)).
Proof.
  intros Hle Heq Hv. rewrite retry_loop_S, Hle, attempt_once_run. cbv zeta.
  rewrite Hv, Heq. reflexivity.
Qed.

(** [n] attempts within the budget, none of them the last, that all fail
    are each followed by a wait, and the loop goes on from there. *)
Lemma retry_loop_prefix (n : nat) :
  forall (fuel : nat) (attempt : Z) (w : World),
    (forall i, (i < n)%nat ->
               num_leb (of_int (attempt + Z.of_nat i)) retries = true /\
               num_eqb (of_int (attempt + Z.of_nat i)) retries = false /\
               attempt + Z.of_nat i < 2 ^ 53 /\
               outcome_value (answer net url init w i) = None) ->
    retry_loop net url init retries baseDelayMs (n + fuel) attempt w
    = retry_loop net url init retries baseDelayMs fuel
        (attempt + Z.of_nat n)
        (after_failures net url init baseDelayMs w attempt n).
Proof.
  induction n as [|n IH]; intros fuel attempt w H.
  - cbn [Nat.add]. unfold after_failures. cbn [repeat seq map].
    rewrite !app_nil_r, Nat.add_0_r, Z.add_0_r.
    destruct w; reflexivity.
  - destruct (H 0%nat ltac:(lia)) as (Hle & Heq & Hlt & Hv).
    rewrite Z.add_0_r in Hle, Heq, Hlt.
    cbn [Nat.add]. rewrite retry_loop_S, Hle, attempt_once_run. cbv zeta.
    rewrite Hv, Heq. unfold increment.
    replace (attempt <? 2 ^ 53) with true by (symmetry; apply Z.ltb_lt; lia).
    rewrite IH.
    + f_equal; [lia|]. apply after_failures_step; reflexivity.
    + intros i Hi. destruct (H (S i) ltac:(lia)) as (Hle' & Heq' & Hlt' & Hv').
      replace (attempt + 1 + Z.of_nat i) with (attempt + Z.of_nat (S i))
        by lia.
      split; [exact Hle'|]. split; [exact Heq'|]. split; [exact Hlt'|].
      rewrite (answer_shift w) by reflexivity. exact Hv'.
Qed.

End RetryLoop.

(** *** Budgets below 2^53 *)

Section Budget.

Variable q : Q.
Hypothesis q_nonneg : (0 <= q)%Q.
Hypothesis q_small : (q < inject_Z (2 ^ 53))%Q.

Lemma floor_nonneg : 0 <= Qfloor q.
Proof. change 0 with (Qfloor 0). apply Qfloor_resp_le. exact q_nonneg. Qed.

Lemma floor_small : Qfloor q < 2 ^ 53.
Proof.
  rewrite Zlt_Qlt. apply Qle_lt_trans with q; [apply Qfloor_le|].
  exact q_small.
Qed.

Lemma within_budget (a : Z) :
  a <= Qfloor q -> num_leb (of_int a) (Finite q) = true.
Proof.
  intros H. unfold num_leb, of_int. apply Qle_bool_iff.
  apply Qle_trans with (inject_Z (Qfloor q)); [|apply Qfloor_le].
  rewrite <- Zle_Qle. exact H.
Qed.

Lemma past_budget (a : Z) :
  Qfloor q < a -> num_leb (of_int a) (Finite q) = false.
Proof.
  intros H. unfold num_leb, of_int.
  destruct (Qle_bool (inject_Z a) q) eqn:E; [|reflexivity].
  apply Qle_bool_iff in E.
  pose proof (Qlt_floor q) as Hq.
  assert (Hle : (inject_Z (Qfloor q + 1) <= inject_Z a)%Q)
    by (rewrite <- Zle_Qle; lia).
  exfalso. apply (Qlt_irrefl q).
  apply Qlt_le_trans with (inject_Z (Qfloor q + 1)); [exact Hq|].
  apply Qle_trans with (inject_Z a); assumption.
Qed.

Lemma before_last (a : Z) :
  a < Qfloor q -> num_eqb (of_int a) (Finite q) = false.
Proof.
  intros H. unfold num_eqb, of_int.
  destruct (Qeq_bool (inject_Z a) q) eqn:E; [|reflexivity].
  apply Qeq_bool_iff in E.
  assert (Hlt : (inject_Z a < inject_Z (Qfloor q))%Q)
    by (rewrite <- Zlt_Qlt; exact H).
  pose proof (Qfloor_le q) as Hq.
  exfalso. apply (Qlt_irrefl q).
  apply Qle_lt_trans with (inject_Z a); [rewrite E; apply Qle_refl|].
  apply Qlt_le_trans with (inject_Z (Qfloor q)); assumption.
Qed.

Lemma at_floor : num_eqb (of_int (Qfloor q)) (Finite q) = whole q.
Proof. reflexivity. Qed.

Lemma loop_bound_small (fuel : nat) :
  loop_bound (Finite q) fuel = S (Z.to_nat (Qfloor q)).
Proof.
  unfold loop_bound.
  destruct (Qle_bool (inject_Z (2 ^ 53)) q) eqn:E.
  - apply Qle_bool_iff in E. exfalso. apply (Qlt_irrefl q).
    apply Qlt_le_trans with (inject_Z (2 ^ 53)); assumption.
  - pose proof floor_nonneg. lia.
Qed.

Variable net : Network.
Variable url : string.
Variable init : RequestInit.
Variable baseDelayMs : number.

(** The first good answer among the first [floor q + 1] is returned, a
    wait having been made after each answer before it. *)
Lemma retry_loop_returns (k fuel : nat) (w : World) (v : value) :
  Z.of_nat k <= Qfloor q ->
  (forall i, (i < k)%nat ->
             outcome_value (answer net url init w i) = None) ->
  outcome_value (answer net url init w k) = Some v ->
  retry_loop net url init (Finite q) baseDelayMs (k + S fuel) 0 w
  = Some (inr v, after_retries net url init baseDelayMs w 0 k).
Proof.
  intros Hk Hfail Hgood. pose proof floor_small as Hs.
  rewrite retry_loop_prefix.
  - rewrite (retry_loop_good _ _ _ _ _ _ _ _ v).
    + rewrite after_failures_then_fetch. reflexivity.
    + apply within_budget. lia.
    + rewrite answer_after_failures, Nat.add_0_r. exact Hgood.
  - intros i Hi. cbn [Z.add].
    split; [apply within_budget; lia|].
    split; [apply before_last; lia|].
    split; [lia|]. apply Hfail. exact Hi.
Qed.

(** With a whole budget, when none of the [floor q + 1] answers is good
    the error of the last one is thrown. *)
Lemma retry_loop_exhausts (fuel : nat) (w : World) :
  whole q = true ->
  (forall i, (i <= Z.to_nat (Qfloor q))%nat ->
             outcome_value (answer net url init w i) = None) ->
  retry_loop net url init (Finite q) baseDelayMs
    (Z.to_nat (Qfloor q) + S fuel) 0 w
  = Some (inl (outcome_error
                 (answer net url init w (Z.to_nat (Qfloor q)))),
          after_retries net url init baseDelayMs w 0 (Z.to_nat (Qfloor q))).
Proof.
  intros Hw Hfail. pose proof floor_small as Hs.
  pose proof floor_nonneg as H0.
  rewrite retry_loop_prefix.
  - cbn [Z.add]. rewrite Z2Nat.id by lia.
    rewrite retry_loop_last.
    + rewrite after_failures_then_fetch, answer_after_failures, Nat.add_0_r.
      reflexivity.
    + apply within_budget. lia.
    + rewrite at_floor. exact Hw.
    + rewrite answer_after_failures, Nat.add_0_r. apply Hfail. lia.
  - intros i Hi. cbn [Z.add].
    split; [apply within_budget; lia|].
    split; [apply before_last; lia|].
    split; [lia|]. apply Hfail. lia.
Qed.

(** With a budget that is not whole no attempt is the last: when none of
    the [floor q + 1] answers is good each is followed by a wait, the loop
    is left and the final [throw] runs. *)
Lemma retry_loop_falls_through (fuel : nat) (w : World) :
  whole q = false ->
  (forall i, (i <= Z.to_nat (Qfloor q))%nat ->
             outcome_value (answer net url init w i) = None) ->
  retry_loop net url init (Finite q) baseDelayMs
    (S (Z.to_nat (Qfloor q)) + fuel) 0 w
  = Some (inl Unreachable,
          after_failures net url init baseDelayMs w 0
            (S (Z.to_nat (Qfloor q)))).
Proof.
  intros Hw Hfail. pose proof floor_small as Hs.
  pose proof floor_nonneg as H0.
  rewrite retry_loop_prefix.
  - apply retry_loop_exit. apply past_budget. lia.
  - intros i Hi. cbn [Z.add].
    split; [apply within_budget; lia|].
    split.
    + destruct (Z.eq_dec (Z.of_nat i) (Qfloor q)) as [E|E].
      * rewrite E, at_floor. exact Hw.
      * apply before_last. lia.
    + split; [lia|]. apply Hfail. lia.
Qed.

(** Every run of the loop with such a budget is one of three. *)
Lemma retry_loop_cases (fuel : nat) (w : World) :
  let n := Z.to_nat (Qfloor q) in
  (exists k v,
     (k <= n)%nat /\
     (forall i, (i < k)%nat ->
                outcome_value (answer net url init w i) = None) /\
     outcome_value (answer net url init w k) = Some v /\
     retry_loop net url init (Finite q) baseDelayMs (S n) 0 w
     = Some (inr v, after_retries net url init baseDelayMs w 0 k)) \/
  ((forall i, (i <= n)%nat ->
              outcome_value (answer net url init w i) = None) /\
   retry_loop net url init (Finite q) baseDelayMs (S n) 0 w
   = if whole q
     then Some (inl (outcome_error (answer net url init w n)),
                after_retries net url init baseDelayMs w 0 n)
     else Some (inl Unreachable,
                after_failures net url init baseDelayMs w 0 (S n))).
Proof.
  intros n. pose proof floor_nonneg as H0.
  destruct (first_defined
              (fun i => outcome_value (answer net url init w i)) n)
    as [(k & v & Hk & Hlt & Hv)|Hnone].
  - left. exists k, v. split; [exact Hk|]. split; [exact Hlt|].
    split; [exact Hv|].
    replace (S n) with (k + S (n - k))%nat by lia.
    apply retry_loop_returns; [subst n; lia | exact Hlt | exact Hv].
  - right. split; [exact Hnone|].
    destruct (whole q) eqn:Hw.
    + replace (S n) with (n + 1)%nat by lia.
      apply retry_loop_exhausts; assumption.
    + pose proof (retry_loop_falls_through 0 w Hw Hnone) as E.
      rewrite Nat.add_0_r in E. exact E.
Qed.

End Budget.

(** *** The call *)

Lemma fetchWithRetry_run (net : Network) (url : string) (init : RequestInit)
    (opts : RetryOpts) (r b : number) (fuel : nat) (w : World) :
  budget_of opts r -> base_delay_of opts b ->
  fetchWithRetry net url init opts fuel w
  = retry_loop net url init r b (loop_bound r fuel) 0 w.
Proof.
  unfold budget_of, base_delay_of, fetchWithRetry.
  intros [Hr|[Hr ->]] [Hb|[Hb ->]]; rewrite Hr, Hb; reflexivity.
Qed.

(** A call whose budget is below 2^53 ends, whatever the answers are and
    however few iterations the observer allows. *)
Lemma fetchWithRetry_ends (net : Network) (url : string)
    (init : RequestInit) (opts : RetryOpts) (r b : number) (fuel : nat)
    (w : World) :
  budget_of opts r -> base_delay_of opts b ->
  num_leb (of_int (2 ^ 53)) r = false ->
  exists res, fetchWithRetry net url init opts fuel w = Some res.
Proof.
  intros Hbudget Hbase Hsmall.
  rewrite (fetchWithRetry_run _ _ _ _ _ _ _ _ Hbudget Hbase).
  destruct (num_leb (of_int 0) r) eqn:H0.
  - destruct r as [| | |q]; try discriminate.
    unfold num_leb, of_int in *. apply Qle_bool_iff in H0.
    assert (Hq : (q < inject_Z (2 ^ 53))%Q).
    { apply Qnot_le_lt. intros Hle. apply Qle_bool_iff in Hle.
      congruence. }
    rewrite (loop_bound_small _ H0 Hq).
    destruct (retry_loop_cases _ H0 Hq net url init b fuel w)
      as [(k & v & _ & _ & _ & E)|[_ E]]; rewrite E; eauto.
    destruct (whole q); eauto.
  - rewrite retry_loop_exit by exact H0. eauto.
Qed.

Lemma whole_inject_Z (R : Z) : whole (inject_Z R) = true.
Proof. unfold whole. rewrite Qfloor_Z. apply Qeq_bool_refl. Qed.

Section WholeBudget.

Variable net : Network.
Variable url : string.
Variable init : RequestInit.
Variable opts : RetryOpts.
Variable R : Z.
Variable b : number.
Hypothesis budget : budget_of opts (of_int R).
Hypothesis base : base_delay_of opts b.
Hypothesis R_range : 0 <= R < 2 ^ 53.

Lemma R_nonneg : (0 <= inject_Z R)%Q.
Proof. change 0%Q with (inject_Z 0). rewrite <- Zle_Qle. lia. Qed.

Lemma R_small : (inject_Z R < inject_Z (2 ^ 53))%Q.
Proof. rewrite <- Zlt_Qlt. lia. Qed.

(** The iterations allowed play no part. *)
Lemma fetchWithRetry_whole (fuel : nat) (w : World) :
  fetchWithRetry net url init opts fuel w
  = retry_loop net url init (of_int R) b (S (Z.to_nat R)) 0 w.
Proof.
  rewrite (fetchWithRetry_run _ _ _ _ _ _ _ _ budget base).
  unfold of_int. rewrite (loop_bound_small _ R_nonneg R_small), Qfloor_Z.
  reflexivity.
Qed.

Lemma fetchWithRetry_returns (k fuel : nat) (w : World) (v : value) :
  Z.of_nat k <= R ->
  (forall i, (i < k)%nat ->
             outcome_value (answer net url init w i) = None) ->
  outcome_value (answer net url init w k) = Some v ->
  fetchWithRetry net url init opts fuel w
  = Some (inr v, after_retries net url init b w 0 k).
Proof.
  intros Hk Hfail Hgood. rewrite fetchWithRetry_whole.
  replace (S (Z.to_nat R)) with (k + S (Z.to_nat R - k))%nat by lia.
  apply (retry_loop_returns _ R_small);
    [rewrite Qfloor_Z; exact Hk | exact Hfail | exact Hgood].
Qed.

Lemma fetchWithRetry_exhausts (fuel : nat) (w : World) :
  (forall i, (i <= Z.to_nat R)%nat ->
             outcome_value (answer net url init w i) = None) ->
  fetchWithRetry net url init opts fuel w
  = Some (inl (outcome_error (answer net url init w (Z.to_nat R))),
          after_retries net url init b w 0 (Z.to_nat R)).
Proof.
  intros Hfail. rewrite fetchWithRetry_whole.
  pose proof (retry_loop_exhausts _ R_nonneg R_small net url init b 0 w
                (whole_inject_Z R)) as E.
  rewrite Qfloor_Z in E. replace (S (Z.to_nat R)) with (Z.to_nat R + 1)%nat
    by lia.
  apply E. exact Hfail.
Qed.

(** Every call is one of two: the first good answer among the first
    [R + 1] is returned, or the error of the last of them is thrown. *)
Lemma fetchWithRetry_cases (fuel : nat) (w : World) :
  (exists k v,
     Z.of_nat k <= R /\
     (forall i, (i < k)%nat ->
                outcome_value (answer net url init w i) = None) /\
     outcome_value (answer net url init w k) = Some v /\
     fetchWithRetry net url init opts fuel w
     = Some (inr v, after_retries net url init b w 0 k)) \/
  ((forall i, Z.of_nat i <= R ->
              outcome_value (answer net url init w i) = None) /\
   fetchWithRetry net url init opts fuel w
   = Some (inl (outcome_error (answer net url init w (Z.to_nat R))),
           after_retries net url init b w 0 (Z.to_nat R))).
Proof.
  destruct (first_defined
              (fun i => outcome_value (answer net url init w i))
              (Z.to_nat R))
    as [(k & v & Hk & Hlt & Hv)|Hnone].
  - left. exists k, v. split; [lia|]. split; [exact Hlt|].
    split; [exact Hv|]. apply fetchWithRetry_returns; [lia | assumption..].
  - right. split; [intros i Hi; apply Hnone; lia|].
    apply fetchWithRetry_exhausts. exact Hnone.
Qed.

(** The world a call leaves: the same request sent once more than it
    waited, and it waited at most [R] times. *)
Lemma fetchWithRetry_world (fuel : nat) (w : World) :
  exists r k,
    Z.of_nat k <= R /\
    fetchWithRetry net url init opts fuel w
    = Some (r, after_retries net url init b w 0 k).
Proof.
  destruct (fetchWithRetry_cases fuel w)
    as [(k & v & Hk & _ & _ & E)|[_ E]].
  - exists (inr v), k. split; [exact Hk | exact E].
  - eexists _, (Z.to_nat R). split; [lia | exact E].
Qed.

End WholeBudget.

Lemma default_budget : budget_of default_opts (of_int 6).
Proof. right. split; reflexivity. Qed.

Lemma default_base_delay : base_delay_of default_opts (of_int 250).
Proof. right. split; reflexivity. Qed.

Lemma given_budget (r : number) (b : option number) :
  budget_of (mkRetryOpts (Some r) b) r.
Proof. left. reflexivity. Qed.

Lemma given_base_delay (r : option number) (b : number) :
  base_delay_of (mkRetryOpts r (Some b)) b.
Proof. left. reflexivity. Qed.

(** The double nearest to 0.24 times 150 is 36, above the product of the
    exact values: the jitter is computed on what the multiplication
    returns. *)
Example jitter_of_rounded_product :
  jitter_of (lit (24 # 100)) = of_int 36 /\
  Qfloor (lit (24 # 100) * 150) = 35.
Proof. split; vm_compute; reflexivity. Qed.



(** A status that is neither a success nor retryable is retried like any
    other failure while attempts remain: the error thrown for it inside
    the [try] block is handled by the [catch] of the same iteration. *)
Lemma fatal_status_retried (net : Network) (url : string)
    (init : RequestInit) (opts : RetryOpts) (R : Z) (base : number)
    (fuel : nat) (w : World) (res : Response) (v : value) :
  budget_of opts (of_int R) -> base_delay_of opts base ->
  1 <= R < 2 ^ 53 ->
  answer net url init w 0 = Responded res ->
  retryable (status res) = false -> ok res = false ->
  outcome_value (answer net url init w 1) = Some v ->
  fetchWithRetry net url init opts fuel w
  = Some (inr v, after_retries net url init base w 0 1).
Proof.
  intros Hbudget Hbase HR Ha Hr Ho Hgood.
  apply (fetchWithRetry_returns net url init opts R base Hbudget Hbase);
    [lia | lia | | exact Hgood].
  intros i Hi. assert (i = 0%nat) by lia. subst i.
  rewrite Ha. unfold outcome_value. rewrite Hr, Ho. reflexivity.
Qed.

(** C1.  Answered 404 and then 200, the call does not fail with the 404:
    it waits, fetches again and returns the second body. *)
Theorem status_404_is_retried :
  retryable 404 = false /\
  outcome_error not_found = HttpStatus 404 "Not Found" /\
  forall fuel,
    fetchWithRetry (scripted [not_found; ok_json (Str "done")])
      "u" plain_get default_opts fuel start
    = Some (inr (Str "done"),
            mkWorld [("u", plain_get); ("u", plain_get)] 1
              [of_int (250 * 2 ^ 0 + 75)]).
Proof.
  split; [reflexivity|]. split; [reflexivity|].
  intros fuel.
  vm_compute. reflexivity.
Qed.

(** ** Properties of the pagination driver *)

Lemma fetchWithRetry_first_try (net : Network) (url : string)
    (init : RequestInit) (opts : RetryOpts) (R : Z) (b : number)
    (fuel : nat) (w : World) (v : value) :
  budget_of opts (of_int R) -> base_delay_of opts b -> 0 <= R < 2 ^ 53 ->
  outcome_value (answer net url init w 0) = Some v ->
  fetchWithRetry net url init opts fuel w
  = Some (inr v, mkWorld (calls w ++ [(url, init)]) (draws w) (slept w)).
Proof.
  intros Hbudget Hbase HR Hgood.
  rewrite (fetchWithRetry_returns net url init opts R b Hbudget Hbase HR
             0 fuel w v); [| lia | intros i Hi; lia | exact Hgood].
  unfold after_retries. cbn. rewrite Nat.add_0_r, app_nil_r. reflexivity.
Qed.

Lemma push_patients_spec (data : list value) :
  forall all : list Patient,
    push_patients all data = (all ++ record_like data)%list.
Proof.
  unfold push_patients, record_like.
  induction data as [|item data IH]; intros all; cbn.
  - rewrite app_nil_r. reflexivity.
  - rewrite IH. destruct (as_patient item); cbn; [|reflexivity].
    rewrite <- app_assoc. reflexivity.
Qed.


Lemma get_data_run (resp : value) (w : World) :
  nullish resp = false ->
  exists d, get_data resp w = (inr d, w) /\ array_or_empty d = page_data resp.
Proof.
  destruct resp; cbn; try discriminate; intros _;
    eexists; split; reflexivity.
Qed.

Lemma get_data_null (resp : value) (w : World) :
  nullish resp = true -> get_data resp w = (inl TypeError, w).
Proof. destruct resp; cbn; try discriminate; reflexivity. Qed.

Section Pagination.

Variable API_KEY : string.
Variable net : Network.

(** The iterations the driver may still run play no part in the transport
    call for a page. *)
Lemma fetch_page_fuel (page : Z) (fuel : nat) (w : World) :
  fetchWithRetry net (patients_url page 20) (get_init API_KEY)
    default_opts fuel w
  = fetch_page API_KEY net page w.
Proof.
  unfold fetch_page.
  rewrite !(fetchWithRetry_whole net _ _ default_opts 6 (of_int 250)
              default_budget default_base_delay ltac:(lia)).
  reflexivity.
Qed.

(** One iteration of the driver, by what the transport call gives. *)
Lemma fetchAllPatients_loop_S (fuel : nat) (page : Z) (all : list Patient)
    (w : World) :
  fetchAllPatients_loop API_KEY net (S fuel) page all w =
  match fetch_page API_KEY net page w with
  | None => None
  | Some (inl e, w1) => Some (inl e, w1)
  | Some (inr resp, w1) =>
      if nullish resp then Some (inl TypeError, w1)
      else
        match page_data resp with
        | [] => Some (inr all, w1)
        | _ :: _ =>
            fetchAllPatients_loop API_KEY net fuel (page + 1)
              (all ++ record_like (page_data resp))%list
              (mkWorld (calls w1) (draws w1) (slept w1 ++ [of_int 120]))
        end
  end.
Proof.
  cbn [fetchAllPatients_loop]. rewrite fetch_page_fuel.
  destruct (fetch_page API_KEY net page w) as [[[e|resp] w1]|];
    try reflexivity.
  destruct (nullish resp) eqn:Hn.
  - rewrite (get_data_null _ _ Hn). reflexivity.
  - destruct (get_data_run resp w1 Hn) as [d [Hd Hdata]].
    rewrite Hd, Hdata. cbv zeta.
    destruct (page_data resp) as [|item items] eqn:Eb; [reflexivity|].
    cbn [List.length Nat.eqb]. rewrite push_patients_spec. reflexivity.
Qed.

(** The loop runs through the pages whose collection is not empty and
    returns at the first whose collection is. *)
Lemma fetchAllPatients_loop_returned (pages : list value) (last : value)
    (page : Z) (w w' : World) :
  pages_returned API_KEY net w page pages last w' ->
  forall (fuel : nat) (all : list Patient),
    Forall (fun b => nullish b = false /\ page_data b <> []) pages ->
    nullish last = false -> page_data last = [] ->
    (List.length pages < fuel)%nat ->
    fetchAllPatients_loop API_KEY net fuel page all w
    = Some (inr (all ++ flat_map (fun b => record_like (page_data b))
                          pages)%list, w').
Proof.
  induction 1 as [w page last w' Hlast
                 |w page b w1 bodies last w' Hb Hrest IH];
    intros fuel all Hpages Hnull Hempty Hfuel;
    (destruct fuel as [|fuel]; [cbn in Hfuel; lia|]);
    rewrite fetchAllPatients_loop_S.
  - rewrite Hlast, Hnull, Hempty. cbn [flat_map]. rewrite app_nil_r.
    reflexivity.
  - inversion Hpages as [|? ? [Hnb Hdb] Hbodies]; subst.
    rewrite Hb, Hnb.
    destruct (page_data b) as [|item items] eqn:Eb; [congruence|].
    rewrite IH; [| exact Hbodies | exact Hnull | exact Hempty
                 | cbn in Hfuel; lia].
    cbn [flat_map]. rewrite Eb, app_assoc. reflexivity.
Qed.


End Pagination.




(** Two runs that are handed pages with the same collections return the
    same patients, whatever else the bodies hold. *)
Lemma pagination_ignores_metadata
    (API_KEY : string) (net net' : Network) (pages pages' : list value)
    (last last' : value) (fuel : nat) (w w1 w' w1' : World) :
  pages_returned API_KEY net w 1 pages last w1 ->
  pages_returned API_KEY net' w' 1 pages' last' w1' ->
  Forall (fun b => nullish b = false /\ page_data b <> []) pages ->
  Forall (fun b => nullish b = false) pages' ->
  map page_data pages' = map page_data pages ->
  nullish last = false -> page_data last = [] ->
  nullish last' = false -> page_data last' = [] ->
  (List.length pages < fuel)%nat ->
  option_map fst (fetchAllPatients API_KEY net fuel w)
  = option_map fst (fetchAllPatients API_KEY net' fuel w').
Proof.
  intros Hs Hs' Hp Hn' Hmap Hnl Hel Hnl' Hel' Hfuel.
  assert (Hlen : List.length pages' = List.length pages).
  { rewrite <- (length_map page_data pages'), Hmap. apply length_map. }
  assert (Hp' : Forall (fun b => nullish b = false /\ page_data b <> [])
                  pages').
  { clear Hs Hs' Hlen Hfuel. revert pages Hmap Hp.
    induction Hn' as [|b' pages' Hb' _ IH]; intros pages Hmap Hp;
      [constructor|].
    destruct pages as [|b pages]; [discriminate|].
    cbn in Hmap. inversion Hmap. inversion Hp; subst.
    constructor; [|eapply IH; eassumption].
    split; [exact Hb'|]. intuition congruence. }
  unfold fetchAllPatients.
  rewrite (fetchAllPatients_loop_returned API_KEY net pages last 1 w w1);
    try assumption.
  rewrite (fetchAllPatients_loop_returned API_KEY net' pages' last' 1 w' w1');
    try assumption; [|lia].
  cbn. do 2 f_equal.
  rewrite !flat_map_concat_map.
  rewrite <- (map_map page_data record_like pages).
  rewrite <- (map_map page_data record_like pages').
  rewrite Hmap. reflexivity.
Qed.

(** ** The run *)

(** What [main] posts is the finalized classification of the patients the
    pagination driver returned. *)
Lemma main_submits_classification (API_KEY : string) (net : Network)
    (ToStringOther : value -> string) (fuel : nat) (w w1 : World)
    (patients : list Patient) :
  fetchAllPatients API_KEY net fuel w = Some (inr patients, w1) ->
  main API_KEY net ToStringOther fuel w
  = submitAssessment API_KEY net
      (submission ToStringOther (classify patients)) fuel w1.
Proof. intros H. unfold main. rewrite H. reflexivity. Qed.

(** A failure of the pagination driver ends the run: nothing is posted. *)
Lemma main_aborts_on_fetch_failure (API_KEY : string) (net : Network)
    (ToStringOther : value -> string) (fuel : nat) (w w1 : World)
    (e : Error) :
  fetchAllPatients API_KEY net fuel w = Some (inl e, w1) ->
  main API_KEY net ToStringOther fuel w = Some (inl e, w1).
Proof. intros H. unfold main. rewrite H. reflexivity. Qed.

(** Three pages, the third empty, then the answer to the submission: the
    patients of pages 1 and 2 are classified and one payload is posted. *)
Example run_over_three_pages :
  option_map
    (fun r => (fst r, map (fun c => body (snd c)) (calls (snd r))))
    (main "key"
       (scripted (map ok_json three_pages ++ [ok_json (Str "accepted")]))
       (fun _ => "") 3 start)
  = Some (inr (Str "accepted"),
          [None; None; None;
           Some (mkSubmissionBody [Str "B"] [Str "B"] [Str "A"])]).
Proof. vm_compute. reflexivity. Qed.

(** ** Further properties of the normaliser *)

Lemma split_nonempty (sep : ascii) (s : string) : split sep s <> [].
Proof.
  destruct s as [|c r]; cbn; [discriminate|].
  destruct (Ascii.eqb c sep); [discriminate|].
  destruct (split sep r); discriminate.
Qed.

Lemma split_length (sep : ascii) (s : string) :
  List.length (split sep s) = S (count_char sep s).
Proof.
  induction s as [|c r IH]; cbn; [reflexivity|].
  destruct (Ascii.eqb c sep); cbn; [rewrite IH; reflexivity|].
  destruct (split sep r) as [|h t] eqn:E; [discriminate IH|].
  cbn in *. exact IH.
Qed.

Lemma split_no_sep (sep : ascii) (s : string) :
  count_char sep s = 0%nat -> split sep s = [s].
Proof.
  induction s as [|c r IH]; cbn; [reflexivity|].
  destruct (Ascii.eqb c sep); cbn; [discriminate|].
  intros H. rewrite (IH H). reflexivity.
Qed.

Lemma split_single (sep : ascii) (s b : string) :
  split sep s = [b] -> s = b /\ count_char sep s = 0%nat.
Proof.
  intros H. assert (L := split_length sep s). rewrite H in L. cbn in L.
  assert (C : count_char sep s = 0%nat) by lia.
  rewrite (split_no_sep _ _ C) in H. split; [congruence | exact C].
Qed.

Lemma split_app (sep : ascii) (a rest : string) :
  count_char sep a = 0%nat ->
  split sep (a ++ String sep rest) = a :: split sep rest.
Proof.
  induction a as [|c r IH]; cbn.
  - rewrite Ascii.eqb_refl. reflexivity.
  - destruct (Ascii.eqb c sep); cbn; [discriminate|].
    intros H. rewrite (IH H). reflexivity.
Qed.

Lemma split_pair (sep : ascii) (s : string) :
  forall a b : string,
    split sep s = [a; b] ->
    s = (a ++ String sep b)%string /\
    count_char sep a = 0%nat /\ count_char sep b = 0%nat.
Proof.
  induction s as [|c r IH]; intros a b; cbn; [discriminate|].
  destruct (Ascii.eqb c sep) eqn:E.
  - intros H. inversion H; subst. apply Ascii.eqb_eq in E. subst c.
    destruct (split_single _ _ _ H2) as [-> Hc].
    cbn. auto.
  - destruct (split sep r) as [|h t] eqn:Er; [discriminate|].
    intros H. inversion H; subst.
    destruct (IH h b eq_refl) as (-> & Ha & Hb).
    cbn. rewrite E. auto.
Qed.

(** *** White space *)

Lemma trimEnd_app_white (s post : string) :
  all_white post = true -> trimEnd (s ++ post) = trimEnd s.
Proof.
  intros H. induction s as [|c r IH]; cbn.
  - apply trimEnd_all_white. exact H.
  - rewrite IH. reflexivity.
Qed.

Lemma trim_app_white_r (s post : string) :
  all_white post = true -> trim (s ++ post) = trim s.
Proof.
  intros H. unfold trim. induction s as [|c r IH]; cbn.
  - rewrite (trimStart_all_white _ H). reflexivity.
  - destruct (is_white c); [exact IH|].
    apply (trimEnd_app_white (String c r)). exact H.
Qed.

Lemma trim_app_white_l (pre s : string) :
  all_white pre = true -> trim (pre ++ s) = trim s.
Proof.
  unfold trim. induction pre as [|c r IH]; cbn; [reflexivity|].
  intros H. apply andb_true_iff in H. destruct H as [Hc Hr].
  rewrite Hc. exact (IH Hr).
Qed.

Lemma trimEnd_idempotent (s : string) : trimEnd (trimEnd s) = trimEnd s.
Proof.
  induction s as [|c r IH]; cbn; [reflexivity|].
  destruct (is_white c && (trimEnd r =? "")%string) eqn:E; [reflexivity|].
  cbn. rewrite IH, E. reflexivity.
Qed.

Lemma trimStart_trimEnd (s : string) :
  trimStart (trimEnd (trimStart s)) = trimEnd (trimStart s).
Proof.
  induction s as [|c r IH]; cbn; [reflexivity|].
  destruct (is_white c) eqn:E; [exact IH|].
  cbn. rewrite E. cbn. rewrite E. reflexivity.
Qed.

Lemma trim_idempotent (s : string) : trim (trim s) = trim s.
Proof.
  unfold trim. rewrite trimStart_trimEnd. apply trimEnd_idempotent.
Qed.

Lemma trim_empty_all_white (s : string) :
  trim s = "" -> all_white s = true.
Proof.
  unfold trim. induction s as [|c r IH]; cbn; [reflexivity|].
  destruct (is_white c) eqn:E; cbn; [exact IH|].
  rewrite E. cbn. discriminate.
Qed.

Lemma all_white_no_slash (s : string) :
  all_white s = true -> count_char "/" s = 0%nat.
Proof.
  induction s as [|c r IH]; cbn; [reflexivity|].
  intros H. apply andb_true_iff in H. destruct H as [Hc Hr].
  rewrite (IH Hr).
  destruct (Ascii.eqb c "/") eqn:E; [|reflexivity].
  apply Ascii.eqb_eq in E. subst c. discriminate Hc.
Qed.

Lemma count_char_app (c : ascii) (a b : string) :
  count_char c (a ++ b) = (count_char c a + count_char c b)%nat.
Proof.
  induction a as [|x r IH]; cbn; [reflexivity|]. rewrite IH. lia.
Qed.

Lemma toFiniteNumber_trim (s : string) :
  toFiniteNumber (Str (trim s)) = toFiniteNumber (Str s).
Proof. cbn. rewrite trim_idempotent. reflexivity. Qed.

(** X1.  A blood pressure that is not a string, or a string that does not
    hold exactly one [/], does not parse. *)
Theorem parseBloodPressure_needs_one_slash :
  (forall s, count_char "/" s <> 1%nat -> parseBloodPressure (Str s) = None) /\
  (forall v, (forall s, v <> Str s) -> parseBloodPressure v = None).
Proof.
  split.
  - intros s H. unfold parseBloodPressure.
    destruct (negb (isNonEmptyString (Str s))); [reflexivity|].
    assert (L := split_length "/" s).
    destruct (split "/" s) as [|a [|b [|c t]]]; try reflexivity.
    cbn in L. lia.
  - intros v H. destruct v; try reflexivity. destruct (H s eq_refl).
Qed.

Lemma parseBloodPressure_needs_one_slash_witness :
  parseBloodPressure (Str "120/80/70") = None /\
  parseBloodPressure (Str "120-80") = None /\
  parseBloodPressure (Num (Finite 120)) = None.
Proof.
  destruct parseBloodPressure_needs_one_slash as [Hs Hv].
  split; [apply Hs; cbn; lia|].
  split; [apply Hs; cbn; lia|].
  apply Hv. intros s H. discriminate H.
Defined.

(** X2.  A string parses as a blood pressure exactly when it is two parts
    around a single [/], neither part blank, each part a finite number for
    [toFiniteNumber]; the result is those two numbers, systolic first. *)
Theorem parseBloodPressure_reads_both_sides (s : string) (sys dia : Q) :
  parseBloodPressure (Str s) = Some (sys, dia) <->
  exists a b,
    s = (a ++ String "/" b)%string /\
    count_char "/" a = 0%nat /\ count_char "/" b = 0%nat /\
    trim a <> "" /\ trim b <> "" /\
    toFiniteNumber (Str a) = Some sys /\ toFiniteNumber (Str b) = Some dia.
Proof.
  unfold parseBloodPressure, isNonEmptyString. split.
  - destruct (negb (negb (trim s =? "")%string)); [discriminate|].
    destruct (split "/" s) as [|a [|b [|c t]]] eqn:E; try discriminate.
    destruct (split_pair _ _ _ _ E) as (Hs & Ha & Hb).
    destruct (trim a =? "")%string eqn:Ea; [discriminate|].
    destruct (trim b =? "")%string eqn:Eb; [discriminate|].
    cbn [orb]. rewrite !toFiniteNumber_trim.
    destruct (toFiniteNumber (Str a)) as [x|] eqn:Ta; [|discriminate].
    destruct (toFiniteNumber (Str b)) as [y|] eqn:Tb; [|discriminate].
    intros H. inversion H; subst x y.
    exists a, b. apply String.eqb_neq in Ea, Eb. auto 10.
  - intros (a & b & Hs & Ha & Hb & Hta & Htb & Hx & Hy).
    assert (Hne : (trim s =? "")%string = false).
    { apply String.eqb_neq. intros Hempty.
      apply trim_empty_all_white, all_white_no_slash in Hempty.
      rewrite Hs, count_char_app in Hempty. cbn in Hempty. lia. }
    rewrite Hne. cbn [negb].
    rewrite Hs, (split_app "/" a b Ha), (split_no_sep "/" b Hb).
    apply String.eqb_neq in Hta, Htb. rewrite Hta, Htb. cbn [orb].
    rewrite !toFiniteNumber_trim, Hx, Hy. reflexivity.
Qed.

Lemma parseBloodPressure_reads_both_sides_witness :
  parseBloodPressure (Str " 118 /76.5") = Some (118%Q, (153 # 2)%Q).
Proof.
  apply (proj2 (parseBloodPressure_reads_both_sides
                  " 118 /76.5" 118%Q (153 # 2)%Q)).
  exists " 118 ", "76.5".
  repeat split; try reflexivity; try (vm_compute; discriminate).
Defined.

(** X3.  White space around a numeric string does not change what
    [toFiniteNumber] returns for it. *)
Theorem toFiniteNumber_ignores_padding (pre s post : string) :
  all_white pre = true -> all_white post = true ->
  toFiniteNumber (Str (pre ++ s ++ post)) = toFiniteNumber (Str s).
Proof.
  intros Hpre Hpost. cbn.
  rewrite (trim_app_white_l _ _ Hpre), (trim_app_white_r _ _ Hpost).
  reflexivity.
Qed.

Lemma toFiniteNumber_ignores_padding_witness :
  toFiniteNumber (Str ("  " ++ "101.5" ++ " "))
  = toFiniteNumber (Str "101.5").
Proof.
  apply toFiniteNumber_ignores_padding; reflexivity.
Defined.

(** ** Further properties of the scorer *)

Lemma sysPoints_range (x : Q) : 1 <= sysPoints x <= 4.
Proof.
  unfold sysPoints.
  destruct (ltb x 120), (geb x 120 && leb x 129), (geb x 130 && leb x 139);
    lia.
Qed.

Lemma diaPoints_range (x : Q) : 1 <= diaPoints x <= 4.
Proof.
  unfold diaPoints. destruct (ltb x 80), (geb x 80 && leb x 89); lia.
Qed.

Lemma bloodPressureScore_range (v : value) : 0 <= bloodPressureScore v <= 4.
Proof.
  unfold bloodPressureScore.
  destruct (parseBloodPressure v) as [[s d]|]; [|lia].
  pose proof (sysPoints_range s). pose proof (diaPoints_range d). lia.
Qed.

Lemma temperatureScore_range (v : value) : 0 <= temperatureScore v <= 2.
Proof.
  unfold temperatureScore. destruct (toFiniteNumber v) as [t|]; [|lia].
  destruct (leb t c99_5), (geb t c99_6 && leb t c100_9), (geb t c101_0);
    lia.
Qed.

Lemma ageScore_range (v : value) : 0 <= ageScore v <= 2.
Proof.
  unfold ageScore. destruct (toFiniteNumber v) as [a|]; [|lia].
  destruct (gtb a 65); lia.
Qed.

(** X4.  The three scores stay within 0..4, 0..2 and 0..2, so the total
    stays within 0..8, and 8 is reached. *)
Theorem scores_are_bounded :
  (forall p,
     0 <= bloodPressureScore (blood_pressure p) <= 4 /\
     0 <= temperatureScore (temperature p) <= 2 /\
     0 <= ageScore (age p) <= 2 /\
     0 <= totalRiskScore p <= 8) /\
  (exists p, totalRiskScore p = 8).
Proof.
  split.
  - intros p. unfold totalRiskScore.
    pose proof (bloodPressureScore_range (blood_pressure p)).
    pose proof (temperatureScore_range (temperature p)).
    pose proof (ageScore_range (age p)). lia.
  - exists (record (Str "P") (Str "150/95") (Str "102") (Str "70")).
    vm_compute. reflexivity.
Qed.

(** X5.  A blood pressure scores 0 exactly when it does not parse, and an
    age scores 0 exactly when it does not normalise: a reading or an age
    that is accepted always counts for at least one point. *)
Theorem zero_points_iff_rejected (v : value) :
  (bloodPressureScore v = 0 <-> parseBloodPressure v = None) /\
  (ageScore v = 0 <-> toFiniteNumber v = None).
Proof.
  split.
  - unfold bloodPressureScore.
    destruct (parseBloodPressure v) as [[s d]|]; [|tauto].
    pose proof (sysPoints_range s). pose proof (diaPoints_range d).
    split; [lia | discriminate].
  - unfold ageScore. destruct (toFiniteNumber v) as [a|]; [|tauto].
    destruct (gtb a 65); split; try lia; discriminate.
Qed.

Lemma zero_points_iff_rejected_witness :
  parseBloodPressure (Str "n/a") = None /\ toFiniteNumber (Str "n/a") = None.
Proof.
  destruct (zero_points_iff_rejected (Str "n/a")) as [Hbp Hage].
  split; [apply Hbp | apply Hage]; vm_compute; reflexivity.
Defined.

(** X6.  A record without a data-quality issue has a total of at least 2:
    its blood pressure and its age both count. *)
Theorem clean_record_scores_at_least_2 (p : Patient) :
  hasDataQualityIssue p = false -> 2 <= totalRiskScore p.
Proof.
  intros H. unfold hasDataQualityIssue in H.
  apply orb_false_iff in H. destruct H as [H Ha].
  apply orb_false_iff in H. destruct H as [Hb Ht].
  unfold totalRiskScore, bloodPressureScore, ageScore.
  destruct (parseBloodPressure (blood_pressure p)) as [[s d]|];
    [|discriminate].
  destruct (toFiniteNumber (age p)) as [a|]; [|discriminate].
  pose proof (sysPoints_range s). pose proof (diaPoints_range d).
  pose proof (temperatureScore_range (temperature p)).
  destruct (gtb a 65); lia.
Qed.

Lemma clean_record_scores_at_least_2_witness :
  2 <= totalRiskScore (record (Str "P") (Str "110/70") (Str "98.6") (Str "30")).
Proof.
  apply clean_record_scores_at_least_2. vm_compute. reflexivity.
Defined.

(** X7.  A patient with temperature points is a fever patient; a fever
    patient has temperature points unless the temperature lies strictly
    between the literals [100.9] and [101.0]. *)
Theorem temperature_points_and_fever (p : Patient) :
  (1 <= temperatureScore (temperature p) -> isFeverPatient p = true) /\
  (isFeverPatient p = true -> temperatureScore (temperature p) = 0 ->
   exists t, toFiniteNumber (temperature p) = Some t /\
             (c100_9 < t)%Q /\ (t < c101_0)%Q).
Proof.
  unfold temperatureScore, isFeverPatient.
  destruct (toFiniteNumber (temperature p)) as [t|]; [|split; [lia|discriminate]].
  split.
  - qcases.
  - intros Hf Hz. exists t. split; [reflexivity|]. revert Hf Hz. qcases.
    all: intros; try discriminate; try lia; split; lra.
Qed.

Lemma temperature_points_and_fever_witness :
  isFeverPatient [("temperature", Str "100.4")] = true.
Proof.
  apply (proj1 (temperature_points_and_fever [("temperature", Str "100.4")])).
  vm_compute. discriminate.
Defined.

(** X8.  Without a blood pressure that parses a record is high risk
    exactly when its temperature is at least 101.0 and its age above 65. *)
Theorem high_risk_without_blood_pressure (p : Patient) :
  parseBloodPressure (blood_pressure p) = None ->
  (4 <= totalRiskScore p <->
   exists t a,
     toFiniteNumber (temperature p) = Some t /\ (c101_0 <= t)%Q /\
     toFiniteNumber (age p) = Some a /\ (65 < a)%Q).
Proof.
  intros Hbp. unfold totalRiskScore.
  rewrite (bloodPressureScore_unparsed _ Hbp).
  unfold temperatureScore, ageScore. split.
  - destruct (toFiniteNumber (temperature p)) as [t|];
      destruct (toFiniteNumber (age p)) as [a|]; try (qcases; fail).
    intros H. exists t, a. revert H. qcases.
    all: intros; try lia; repeat split; lra.
  - intros (t & a & -> & Ht & -> & Ha). qcases.
Qed.

Lemma high_risk_without_blood_pressure_witness :
  4 <= totalRiskScore (record (Str "P") Null (Str "101") (Str "66")).
Proof.
  apply (proj2 (high_risk_without_blood_pressure
                  (record (Str "P") Null (Str "101") (Str "66")) eq_refl)).
  exists 101%Q, 66%Q. repeat split; vm_compute; try reflexivity; discriminate.
Defined.

(** X9.  A systolic reading of at least 140 or a diastolic reading of at
    least 90 makes the record high risk whatever the other fields hold. *)
Theorem stage2_reading_is_high_risk (p : Patient) (sys dia : Q) :
  parseBloodPressure (blood_pressure p) = Some (sys, dia) ->
  (140 <= sys)%Q \/ (90 <= dia)%Q ->
  4 <= totalRiskScore p.
Proof.
  intros Hbp H. unfold totalRiskScore, bloodPressureScore. rewrite Hbp.
  pose proof (temperatureScore_range (temperature p)).
  pose proof (ageScore_range (age p)).
  pose proof (sysPoints_range sys). pose proof (diaPoints_range dia).
  assert (sysPoints sys = 4 \/ diaPoints dia = 4); [|lia].
  destruct H as [H|H]; [left; unfold sysPoints | right; unfold diaPoints];
    qcases.
Qed.

Lemma stage2_reading_is_high_risk_witness :
  4 <= totalRiskScore (record (Str "P") (Str "118/92") Null Null).
Proof.
  apply (stage2_reading_is_high_risk
           (record (Str "P") (Str "118/92") Null Null) 118%Q 92%Q).
  - vm_compute. reflexivity.
  - right. vm_compute. discriminate.
Defined.

(** ** Further properties of the retrying transport *)

(** X10.  With a whole budget of [R] retries, given in the options or the
    default 6, whatever the answers are the call returns the body of the
    first good answer among the first [R + 1], having waited once after
    each answer before it; when none of them is good it throws the error
    of the last one, and the errors of the earlier ones are dropped.  The
    number of iterations the observer allows plays no part. *)
Theorem fetchWithRetry_first_good_or_last_error
    (net : Network) (url : string) (init : RequestInit) (opts : RetryOpts)
    (R : Z) (base : number) (fuel : nat) (w : World) :
  budget_of opts (of_int R) -> base_delay_of opts base ->
  0 <= R < 2 ^ 53 ->
  (exists k v,
     Z.of_nat k <= R /\
     (forall i, (i < k)%nat ->
                outcome_value (answer net url init w i) = None) /\
     outcome_value (answer net url init w k) = Some v /\
     fetchWithRetry net url init opts fuel w
     = Some (inr v, after_retries net url init base w 0 k)) \/
  ((forall i, Z.of_nat i <= R ->
              outcome_value (answer net url init w i) = None) /\
   fetchWithRetry net url init opts fuel w
   = Some (inl (outcome_error (answer net url init w (Z.to_nat R))),
           after_retries net url init base w 0 (Z.to_nat R))).
Proof.
  intros Hbudget Hbase HR.
  exact (fetchWithRetry_cases net url init opts R base Hbudget Hbase HR
           fuel w).
Qed.

(** Answered 404, then a network failure, then 200: the third answer is
    returned after two waits. *)
Lemma fetchWithRetry_first_good_or_last_error_witness :
  fetchWithRetry
    (scripted [not_found; Rejected "reset"; ok_json (Str "done")])
    "u" plain_get default_opts 0 start
  = Some (inr (Str "done"),
          mkWorld [("u", plain_get); ("u", plain_get); ("u", plain_get)] 2
            [of_int 325; of_int 575]).
Proof.
  destruct (fetchWithRetry_first_good_or_last_error
              (scripted [not_found; Rejected "reset"; ok_json (Str "done")])
              "u" plain_get default_opts 6 (of_int 250) 0 start)
    as [(k & v & _ & Hlt & Hv & E)|[Hnone _]].
  - right. split; reflexivity.
  - right. split; reflexivity.
  - cbn. lia.
  - destruct k as [|[|[|k]]].
    + vm_compute in Hv. discriminate Hv.
    + vm_compute in Hv. discriminate Hv.
    + vm_compute in Hv. inversion Hv; subst v. rewrite E.
      vm_compute. reflexivity.
    + assert (H := Hlt 2%nat ltac:(lia)). vm_compute in H. discriminate H.
  - assert (H := Hnone 2%nat ltac:(cbn; lia)). vm_compute in H.
    discriminate H.
Defined.

(** *** Budgets that are not whole numbers *)

Lemma num_leb_below (retries : number) (a : Z) :
  num_leb (of_int (2 ^ 53)) retries = true -> a <= 2 ^ 53 ->
  num_leb (of_int a) retries = true.
Proof.
  intros H Ha. destruct retries as [| | |q]; try discriminate H;
    [reflexivity|].
  unfold num_leb, of_int in *. apply Qle_bool_iff in H.
  apply Qle_bool_iff. apply Qle_trans with (inject_Z (2 ^ 53)); [|exact H].
  rewrite <- Zle_Qle. exact Ha.
Qed.

(** With a budget of 2^53 or more, or an infinite one, the counter never
    gets past the budget: the loop is never left by its condition. *)
Lemma retry_loop_large (net : Network) (url : string) (init : RequestInit)
    (retries baseDelayMs : number) (fuel : nat) :
  num_leb (of_int (2 ^ 53)) retries = true ->
  forall (attempt : Z) (w w' : World),
    attempt <= 2 ^ 53 ->
    retry_loop net url init retries baseDelayMs fuel attempt w
    <> Some (inl Unreachable, w').
Proof.
  intros Hlarge. induction fuel as [|fuel IH]; intros attempt w w' Ha.
  - cbn [retry_loop]. rewrite (num_leb_below _ _ Hlarge Ha). discriminate.
  - rewrite retry_loop_S, (num_leb_below _ _ Hlarge Ha), attempt_once_run.
    cbv zeta.
    destruct (outcome_value (answer net url init w 0)); [discriminate|].
    destruct (num_eqb (of_int attempt) retries).
    + intros H. inversion H as [[He Hw]]. revert He.
      apply outcome_error_not_unreachable.
    + apply IH. unfold increment.
      destruct (Z.ltb_spec attempt (2 ^ 53)); lia.
Qed.

(** X11.  The statement after the loop, which the source marks
    unreachable, is reached exactly when no attempt is the last one.  With
    a budget that is a whole number from 0 on, at least 2^53 or infinite
    it is never reached.  With a budget that is negative, [NaN] or minus
    infinity it is all that runs: no fetch is made.  With a budget between
    two whole numbers, such as 0.5, every attempt that fails is followed
    by a wait and a retry, so when none of the [floor + 1] answers is good
    the call waits after the last of them too and then throws the
    unreachable error; a good answer among them is returned as usual. *)
Theorem unreachable_only_without_last_attempt
    (net : Network) (url : string) (init : RequestInit) (opts : RetryOpts)
    (r base : number) (fuel : nat) (w : World) :
  budget_of opts r -> base_delay_of opts base ->
  ((r = PosInfinity \/
    exists q, r = Finite q /\ (0 <= q)%Q /\
              (whole q = true \/ (inject_Z (2 ^ 53) <= q)%Q)) ->
   forall w', fetchWithRetry net url init opts fuel w
              <> Some (inl Unreachable, w')) /\
  ((r = NaN \/ r = NegInfinity \/ exists q, r = Finite q /\ (q < 0)%Q) ->
   fetchWithRetry net url init opts fuel w = Some (inl Unreachable, w)) /\
  (forall q,
     r = Finite q -> (0 <= q)%Q -> (q < inject_Z (2 ^ 53))%Q ->
     whole q = false ->
     let n := S (Z.to_nat (Qfloor q)) in
     ((forall i, (i < n)%nat ->
                 outcome_value (answer net url init w i) = None) ->
      fetchWithRetry net url init opts fuel w
      = Some (inl Unreachable, after_failures net url init base w 0 n)) /\
     (forall k v,
        (k < n)%nat ->
        (forall i, (i < k)%nat ->
                   outcome_value (answer net url init w i) = None) ->
        outcome_value (answer net url init w k) = Some v ->
        fetchWithRetry net url init opts fuel w
        = Some (inr v, after_retries net url init base w 0 k))).
Proof.
  intros Hbudget Hbase.
  rewrite (fetchWithRetry_run _ _ _ _ _ _ _ _ Hbudget Hbase).
  split; [|split].
  - intros [->|(q & -> & Hq0 & Hq)] w'.
    + apply retry_loop_large; [reflexivity | lia].
    + destruct (Qlt_le_dec q (inject_Z (2 ^ 53))) as [Hsmall|Hlarge].
      * destruct Hq as [Hw|Hq];
          [|exfalso; apply (Qlt_irrefl q);
            apply Qlt_le_trans with (inject_Z (2 ^ 53)); assumption].
        rewrite (loop_bound_small _ Hq0 Hsmall).
        destruct (retry_loop_cases _ Hq0 Hsmall net url init base fuel w)
          as [(k & v & _ & _ & _ & E)|[_ E]]; rewrite E; [discriminate|].
        rewrite Hw. intros H. inversion H as [[He Hw']]. revert He.
        apply outcome_error_not_unreachable.
      * apply retry_loop_large; [|lia].
        unfold num_leb, of_int. apply Qle_bool_iff. exact Hlarge.
  - intros Hr. apply retry_loop_exit.
    destruct Hr as [->|[->|(q & -> & Hq)]]; try reflexivity.
    unfold num_leb, of_int.
    destruct (Qle_bool (inject_Z 0) q) eqn:E; [|reflexivity].
    apply Qle_bool_iff in E. exfalso. apply (Qlt_irrefl q).
    apply Qlt_le_trans with 0%Q; assumption.
  - intros q -> Hq0 Hsmall Hw n.
    rewrite (loop_bound_small _ Hq0 Hsmall). fold n.
    pose proof (floor_nonneg _ Hq0) as Hf.
    split.
    + intros Hnone.
      pose proof (retry_loop_falls_through _ Hq0 Hsmall net url init base
                    0 w Hw) as E.
      rewrite Nat.add_0_r in E. apply E.
      intros i Hi. apply Hnone. subst n. lia.
    + intros k v Hk Hlt Hv.
      replace n with (k + S (n - S k))%nat by lia.
      apply (retry_loop_returns _ Hsmall); [subst n; lia | exact Hlt
                                            | exact Hv].
Qed.

(** A budget of 0.5 and a first answer of 429: the call waits 250 + 75 ms
    and then throws the unreachable error, without a second fetch.  A
    budget of -1: nothing is fetched. *)
Lemma unreachable_only_without_last_attempt_witness :
  fetchWithRetry (scripted [status_only 429; ok_json Null]) "u" plain_get
    (mkRetryOpts (Some (Finite (1 # 2))) None) 0 start
  = Some (inl Unreachable, mkWorld [("u", plain_get)] 1 [of_int 325]) /\
  fetchWithRetry (scripted [ok_json Null]) "u" plain_get
    (mkRetryOpts (Some (of_int (-1))) None) 0 start
  = Some (inl Unreachable, start).
Proof.
  split.
  - refine (eq_trans
              (proj1 (proj2 (proj2
                 (unreachable_only_without_last_attempt
                    (scripted [status_only 429; ok_json Null]) "u" plain_get
                    (mkRetryOpts (Some (Finite (1 # 2))) None)
                    (Finite (1 # 2)) (of_int 250) 0 start
                    (given_budget _ _) _))
                 (1 # 2)%Q eq_refl _ _ eq_refl) _) _).
    + right. split; reflexivity.
    + unfold Qle. cbn. lia.
    + unfold Qlt. cbn. lia.
    + intros [|i] Hi; [reflexivity|]. cbn in Hi. lia.
    + vm_compute. reflexivity.
  - apply (proj1 (proj2 (unreachable_only_without_last_attempt
                           (scripted [ok_json Null]) "u" plain_get
                           (mkRetryOpts (Some (of_int (-1))) None)
                           (of_int (-1)) (of_int 250) 0 start
                           (given_budget _ _) ltac:(right; split; reflexivity)))).
    right. right. exists (inject_Z (-1)). split; [reflexivity|].
    unfold Qlt. cbn. lia.
Defined.

(** *** The cost of a call *)

Lemma jitter_ms_bounds (r : Q) :
  (0 <= r)%Q -> (r <= below_one)%Q ->
  0 <= jitter_ms r < 150 /\ jitter_of r = of_int (jitter_ms r).
Proof.
  intros H0 H1. destruct (jitter_bounds r H0 H1) as (jit & Hj & E).
  unfold jitter_ms. rewrite E. unfold of_int. rewrite Qfloor_Z.
  split; [exact Hj | reflexivity].
Qed.

Lemma total_ms_app (a b : list Z) :
  total_ms (a ++ b) = total_ms a + total_ms b.
Proof.
  unfold total_ms. induction a as [|x a IH]; cbn; [reflexivity|].
  rewrite IH. lia.
Qed.

Lemma total_ms_bound (f : nat -> Z) (base : Z) (k : nat) :
  (forall i, f i <= base * 2 ^ Z.of_nat i + 149) ->
  total_ms (map f (seq 0 k)) <= base * (2 ^ Z.of_nat k - 1) + 149 * Z.of_nat k.
Proof.
  intros Hf. induction k as [|k IH].
  - cbn. lia.
  - rewrite seq_S, map_app, total_ms_app. cbn [map total_ms fold_right plus].
    specialize (Hf k).
    rewrite Nat2Z.inj_succ, Z.pow_succ_r by lia. lia.
Qed.

(** The waits of [k] retries in whole milliseconds, where every
    intermediate value stays below 2^53. *)
Lemma backoff_schedule (net : Network) (B : Z) (w : World) (k : nat)
    (R : Z) :
  0 <= B -> Z.of_nat k <= R -> R <= 52 -> B * 2 ^ R + 150 <= 2 ^ 53 ->
  (forall j, 0 <= random net j /\ random net j <= below_one)%Q ->
  let waits :=
    map (fun i => B * 2 ^ Z.of_nat i + jitter_ms (random net (draws w + i)))
      (seq 0 k) in
  map (fun i => wait_after net (of_int B) w (0 + Z.of_nat i) i) (seq 0 k)
  = map of_int waits /\
  List.length waits = k /\
  total_ms waits <= B * (2 ^ R - 1) + 149 * R.
Proof.
  intros HB Hk HR Hfit Hr waits. split; [|split].
  - subst waits. rewrite map_map. apply map_ext_in. intros i Hi.
    apply in_seq in Hi. cbn [Z.add].
    destruct (Hr (draws w + i)%nat) as [H0 H1].
    destruct (jitter_ms_bounds _ H0 H1) as [Hj E].
    unfold wait_after. rewrite E.
    assert (2 ^ Z.of_nat i <= 2 ^ R) by (apply Z.pow_le_mono_r; lia).
    apply wait_of_exact; [lia | lia | exact Hj | nia].
  - subst waits. rewrite length_map, length_seq. reflexivity.
  - apply Z.le_trans with (B * (2 ^ Z.of_nat k - 1) + 149 * Z.of_nat k).
    + subst waits. apply total_ms_bound. intros i.
      destruct (Hr (draws w + i)%nat) as [H0 H1].
      destruct (jitter_ms_bounds _ H0 H1) as [Hj _]. lia.
    + assert (2 ^ Z.of_nat k <= 2 ^ R) by (apply Z.pow_le_mono_r; lia).
      nia.
Qed.



(** ** Further properties of the pagination driver *)

Lemma world_eta (w : World) : mkWorld (calls w) (draws w) (slept w) = w.
Proof. destruct w. reflexivity. Qed.

Lemma after_paced_pages_step (API_KEY : string) (w w' : World) (page : Z)
    (n : nat) :
  calls w' = (calls w ++ [(patients_url page 20, get_init API_KEY)])%list ->
  draws w' = draws w ->
  slept w' = (slept w ++ [of_int 120])%list ->
  after_paced_pages API_KEY w' (page + 1) n
  = after_paced_pages API_KEY w page (S n).
Proof.
  intros Hc Hd Hs. unfold after_paced_pages. rewrite Hc, Hd, Hs. f_equal.
  - rewrite <- app_assoc. f_equal.
    change (seq 0 (S n)) with (0%nat :: seq 1 n).
    cbn [map app]. f_equal.
    + rewrite Z.add_0_r. reflexivity.
    + rewrite <- seq_shift, map_map. apply map_ext. intros j.
      do 2 f_equal. lia.
  - rewrite <- app_assoc. reflexivity.
Qed.

Lemma serves_pages_tail (API_KEY : string) (net : Network) (w w' : World)
    (page : Z) (b : value) (bodies : list value) :
  List.length (calls w') = S (List.length (calls w)) ->
  serves_pages API_KEY net w page (b :: bodies) ->
  serves_pages API_KEY net w' (page + 1) bodies.
Proof.
  intros Hc H j b' Hj. specialize (H (S j) b' Hj).
  unfold answer in *. rewrite Hc.
  replace (page + 1 + Z.of_nat j) with (page + Z.of_nat (S j)) by lia.
  replace (S (List.length (calls w)) + j)%nat
    with (List.length (calls w) + S j)%nat by lia.
  exact H.
Qed.

(** A page answered well at the first attempt costs one fetch. *)
Lemma fetch_page_first_try (API_KEY : string) (net : Network) (page : Z)
    (w : World) (b : value) :
  outcome_value
    (answer net (patients_url page 20) (get_init API_KEY) w 0) = Some b ->
  fetch_page API_KEY net page w
  = Some (inr b,
          mkWorld (calls w ++ [(patients_url page 20, get_init API_KEY)])
            (draws w) (slept w)).
Proof.
  intros H. unfold fetch_page.
  apply (fetchWithRetry_first_try _ _ _ _ 6 (of_int 250));
    [apply default_budget | apply default_base_delay | lia | exact H].
Qed.

Lemma after_pages_step (API_KEY : string) (w w' : World) (page : Z)
    (n : nat) :
  calls w' = (calls w ++ [(patients_url page 20, get_init API_KEY)])%list ->
  draws w' = draws w ->
  slept w' = (slept w ++ [of_int 120])%list ->
  after_pages API_KEY w' (page + 1) n = after_pages API_KEY w page (S n).
Proof.
  intros Hc Hd Hs. unfold after_pages. rewrite Hc, Hd, Hs. f_equal.
  - rewrite <- app_assoc. f_equal.
    change (seq 0 (S (S n))) with (0%nat :: seq 1 (S n)).
    cbn [map app]. f_equal.
    + rewrite Z.add_0_r. reflexivity.
    + rewrite <- seq_shift, map_map. apply map_ext. intros j.
      do 2 f_equal. lia.
  - rewrite <- app_assoc. reflexivity.
Qed.

(** Pages that are each served at the first attempt are a case of pages
    the transport returns. *)
Lemma served_pages_returned (API_KEY : string) (net : Network)
    (pages : list value) (last : value) :
  forall (page : Z) (w : World),
    serves_pages API_KEY net w page (pages ++ [last]) ->
    pages_returned API_KEY net w page pages last
      (after_pages API_KEY w page (List.length pages)).
Proof.
  induction pages as [|b pages IH]; intros page w Hserve.
  - apply returned_last.
    rewrite (fetch_page_first_try _ _ _ _ last);
      [| specialize (Hserve 0%nat last eq_refl);
         rewrite Z.add_0_r in Hserve; exact Hserve].
    unfold after_pages. cbn. rewrite Z.add_0_r, app_nil_r. reflexivity.
  - cbn [List.length].
    eapply returned_next.
    + apply (fetch_page_first_try _ _ _ _ b).
      specialize (Hserve 0%nat b eq_refl).
      rewrite Z.add_0_r in Hserve. exact Hserve.
    + cbn [calls draws slept].
      rewrite <- (after_pages_step API_KEY w
                    (mkWorld (calls w ++ [(patients_url page 20,
                                           get_init API_KEY)])
                       (draws w) (slept w ++ [of_int 120])) page)
        by reflexivity.
      apply IH. eapply serves_pages_tail; [|exact Hserve].
      cbn. rewrite length_app. cbn. lia.
Qed.

Lemma serves_pages_prefix (API_KEY : string) (net : Network) (w : World)
    (page : Z) (pages rest : list value) :
  serves_pages API_KEY net w page (pages ++ rest) ->
  serves_pages API_KEY net w page pages.
Proof.
  intros H j b Hj. apply H. rewrite nth_error_app1; [exact Hj|].
  apply nth_error_Some. congruence.
Qed.

(** The loop runs through pages whose collections are not empty, keeping
    their record-like entries, and goes on from the page after them. *)
Lemma fetchAllPatients_loop_pages (API_KEY : string) (net : Network)
    (pages : list value) :
  forall (fuel : nat) (page : Z) (all : list Patient) (w : World),
    serves_pages API_KEY net w page pages ->
    Forall (fun b => nullish b = false /\ page_data b <> []) pages ->
    fetchAllPatients_loop API_KEY net (List.length pages + fuel) page all w
    = fetchAllPatients_loop API_KEY net fuel
        (page + Z.of_nat (List.length pages))
        (all ++ flat_map (fun b => record_like (page_data b)) pages)%list
        (after_paced_pages API_KEY w page (List.length pages)).
Proof.
  induction pages as [|b pages IH]; intros fuel page all w Hserve Hpages.
  - cbn [List.length flat_map Nat.add]. unfold after_paced_pages. cbn.
    rewrite !app_nil_r, Z.add_0_r, world_eta. reflexivity.
  - inversion Hpages as [|? ? [Hnb Hdb] Hrest]; subst.
    cbn [List.length Nat.add]. rewrite fetchAllPatients_loop_S.
    rewrite (fetch_page_first_try _ _ _ _ b), Hnb;
      [| specialize (Hserve 0%nat b eq_refl);
         rewrite Z.add_0_r in Hserve; exact Hserve].
    destruct (page_data b) as [|item items] eqn:Eb; [congruence|].
    rewrite IH; [| | exact Hrest].
    + f_equal.
      * lia.
      * cbn [flat_map]. rewrite Eb, app_assoc. reflexivity.
      * apply after_paced_pages_step; reflexivity.
    + eapply serves_pages_tail; [|exact Hserve].
      cbn. rewrite length_app. cbn. lia.
Qed.

Lemma answer_after_paced_pages (API_KEY : string) (net : Network)
    (w : World) (page : Z) (n i : nat) (url : string) (init : RequestInit) :
  answer net url init (after_paced_pages API_KEY w page n) i
  = answer net url init w (n + i).
Proof.
  unfold answer, after_paced_pages. cbn [calls].
  rewrite length_app, length_map, length_seq. f_equal. lia.
Qed.

(** X13.  When the pages before it were collected and every attempt at the
    next page fails, the driver throws the error of the last attempt and
    returns none of the patients it had collected. *)
Theorem fetchAllPatients_aborts_on_transport_failure
    (API_KEY : string) (net : Network) (pages : list value) (fuel : nat)
    (w : World) :
  let n := List.length pages in
  let url := patients_url (1 + Z.of_nat n) 20 in
  let w1 := after_paced_pages API_KEY w 1 n in
  serves_pages API_KEY net w 1 pages ->
  Forall (fun b => nullish b = false /\ page_data b <> []) pages ->
  (forall i, (i <= 6)%nat ->
             outcome_value (answer net url (get_init API_KEY) w1 i) = None) ->
  (n < fuel)%nat ->
  fetchAllPatients API_KEY net fuel w
  = Some (inl (outcome_error (answer net url (get_init API_KEY) w1 6)),
          after_retries net url (get_init API_KEY) (of_int 250) w1 0 6).
Proof.
  intros n url w1 Hserve Hpages Hfail Hfuel. unfold fetchAllPatients.
  replace fuel with (List.length pages + S (fuel - S n))%nat by (subst n; lia).
  rewrite (fetchAllPatients_loop_pages API_KEY net pages); try assumption.
  rewrite fetchAllPatients_loop_S. fold n url w1.
  unfold fetch_page. fold url.
  rewrite (fetchWithRetry_exhausts net url (get_init API_KEY) default_opts
             6 (of_int 250) default_budget default_base_delay ltac:(lia));
    [reflexivity | exact Hfail].
Qed.

Lemma fetchAllPatients_aborts_on_transport_failure_witness :
  fetchAllPatients "key"
    (scripted [ok_json (page_body [Obj patient_B] true)]) 2 start
  = Some (inl (FetchFailed "down"),
          after_retries (scripted [ok_json (page_body [Obj patient_B] true)])
            (patients_url 2 20) (get_init "key") (of_int 250)
            (after_paced_pages "key" start 1 1) 0 6).
Proof.
  refine (fetchAllPatients_aborts_on_transport_failure "key"
            (scripted [ok_json (page_body [Obj patient_B] true)])
            [page_body [Obj patient_B] true] 2 start _ _ _ _).
  - intros [|j] b H; cbn in H; inversion H; subst; try reflexivity.
    destruct j; discriminate.
  - repeat constructor; cbn; discriminate.
  - intros i Hi.
    destruct i as [|[|[|[|[|[|[|i]]]]]]]; try reflexivity; lia.
  - cbn. lia.
Defined.

(** X14.  A page whose parsed body is [null] makes the driver throw a
    [TypeError] at [resp.data], after that page has been fetched and with
    the patients of the earlier pages lost. *)
Theorem fetchAllPatients_throws_on_null_body
    (API_KEY : string) (net : Network) (pages : list value) (last : value)
    (fuel : nat) (w : World) :
  serves_pages API_KEY net w 1 (pages ++ [last]) ->
  Forall (fun b => nullish b = false /\ page_data b <> []) pages ->
  nullish last = true ->
  (List.length pages < fuel)%nat ->
  fetchAllPatients API_KEY net fuel w
  = Some (inl TypeError, after_pages API_KEY w 1 (List.length pages)).
Proof.
  intros Hserve Hpages Hnull Hfuel. unfold fetchAllPatients.
  replace fuel
    with (List.length pages + S (fuel - S (List.length pages)))%nat by lia.
  rewrite (fetchAllPatients_loop_pages API_KEY net pages);
    [| eapply serves_pages_prefix; exact Hserve | exact Hpages].
  rewrite fetchAllPatients_loop_S.
  rewrite (fetch_page_first_try _ _ _ _ last), Hnull.
  - do 2 f_equal.
    unfold after_pages, after_paced_pages. cbn [calls draws slept].
    f_equal. rewrite seq_S, map_app, <- app_assoc. reflexivity.
  - rewrite answer_after_paced_pages, Nat.add_0_r.
    apply (Hserve (List.length pages) last).
    rewrite nth_error_app2, Nat.sub_diag by lia. reflexivity.
Qed.

Lemma fetchAllPatients_throws_on_null_body_witness :
  fetchAllPatients "key"
    (scripted [ok_json (page_body [Obj patient_B] true); ok_json Null])
    2 start
  = Some (inl TypeError, after_pages "key" start 1 1).
Proof.
  refine (fetchAllPatients_throws_on_null_body "key"
            (scripted [ok_json (page_body [Obj patient_B] true);
                       ok_json Null])
            [page_body [Obj patient_B] true] Null 2 start _ _ _ _).
  - intros [|[|j]] b H; cbn in H; inversion H; subst; try reflexivity.
    destruct j; discriminate.
  - repeat constructor; cbn; discriminate.
  - reflexivity.
  - cbn. lia.
Defined.

(** X15.  As long as every page comes back with a collection that is not
    empty the driver never returns, whatever [hasNext] says: no number of
    iterations is enough. *)
Theorem fetchAllPatients_never_returns_on_full_pages
    (API_KEY : string) (net : Network) :
  (forall i page,
     exists b,
       outcome_value
         (respond net i (patients_url page 20) (get_init API_KEY)) = Some b /\
       nullish b = false /\ page_data b <> []) ->
  forall fuel w, fetchAllPatients API_KEY net fuel w = None.
Proof.
  intros Hfull fuel. unfold fetchAllPatients.
  generalize 1 at 1. generalize (@nil Patient).
  induction fuel as [|fuel IH]; intros all page w; [reflexivity|].
  rewrite fetchAllPatients_loop_S.
  destruct (Hfull (List.length (calls w)) page) as (b & Hb & Hnb & Hdb).
  rewrite (fetch_page_first_try _ _ _ _ b), Hnb;
    [| unfold answer; rewrite Nat.add_0_r; exact Hb].
  destruct (page_data b) as [|item items]; [congruence|].
  apply IH.
Qed.

Lemma fetchAllPatients_never_returns_on_full_pages_witness :
  fetchAllPatients "key" endless 1000 start = None.
Proof.
  apply fetchAllPatients_never_returns_on_full_pages.
  intros i page. exists (page_body [Obj patient_A] false).
  split; [reflexivity|]. split; [reflexivity | discriminate].
Defined.

Lemma fetchAllPatients_loop_calls (API_KEY : string) (net : Network)
    (fuel : nat) :
  forall (page : Z) (all : list Patient) (w w' : World)
         (r : Error + list Patient),
    fetchAllPatients_loop API_KEY net fuel page all w = Some (r, w') ->
    exists cs,
      calls w' = (calls w ++ cs)%list /\ Forall (is_page_get API_KEY) cs.
Proof.
  induction fuel as [|fuel IH]; intros page all w w' r; [discriminate|].
  rewrite fetchAllPatients_loop_S. unfold fetch_page.
  destruct (fetchWithRetry_world net (patients_url page 20)
              (get_init API_KEY) default_opts 6 (of_int 250)
              default_budget default_base_delay ltac:(lia) 0 w)
    as (r1 & k & _ & Ew).
  assert (Hgets : Forall (is_page_get API_KEY)
                    (repeat (patients_url page 20, get_init API_KEY) (S k))).
  { apply Forall_forall. intros c Hc. apply repeat_spec in Hc. subst c.
    split; [reflexivity | exists page; reflexivity]. }
  rewrite Ew. destruct r1 as [e|resp].
  - intros H. inversion H; subst.
    eexists. split; [|exact Hgets]. reflexivity.
  - destruct (nullish resp).
    + intros H. inversion H; subst.
      eexists. split; [|exact Hgets]. reflexivity.
    + destruct (page_data resp) as [|item items].
      * intros H. inversion H; subst.
        eexists. split; [|exact Hgets]. reflexivity.
      * intros H. apply IH in H. destruct H as [cs [Hc Hcs]].
        cbn [calls after_retries] in Hc.
        eexists. split.
        -- rewrite Hc. rewrite <- app_assoc. reflexivity.
        -- apply Forall_app. split; assumption.
Qed.

(** X16.  Whatever the network answers, every request the driver makes is
    a [GET] of a page URL with limit 20, carrying the API key and no body. *)
Theorem fetchAllPatients_only_gets_pages
    (API_KEY : string) (net : Network) (fuel : nat) (w w' : World)
    (r : Error + list Patient) :
  fetchAllPatients API_KEY net fuel w = Some (r, w') ->
  exists cs,
    calls w' = (calls w ++ cs)%list /\
    Forall (fun c =>
              method (snd c) = "GET" /\ body (snd c) = None /\
              In ("x-api-key", API_KEY) (headers (snd c)) /\
              exists page, fst c = patients_url page 20) cs.
Proof.
  intros H. apply fetchAllPatients_loop_calls in H.
  destruct H as [cs [Hc Hcs]]. exists cs. split; [exact Hc|].
  eapply Forall_impl; [|exact Hcs].
  intros c [Hinit Hurl]. rewrite Hinit. cbn. auto.
Qed.

Lemma fetchAllPatients_only_gets_pages_witness :
  exists cs,
    calls (after_pages "key" start 1 2) = (calls start ++ cs)%list /\
    Forall (fun c =>
              method (snd c) = "GET" /\ body (snd c) = None /\
              In ("x-api-key", "key") (headers (snd c)) /\
              exists page, fst c = patients_url page 20) cs.
Proof.
  apply (fetchAllPatients_only_gets_pages "key"
           (scripted (map ok_json three_pages)) 3 start
           (after_pages "key" start 1 2) (inr [patient_B; patient_A])).
  vm_compute. reflexivity.
Defined.

(** ** Properties of the submission and of the run *)

(** X17.  With [Math.random] a double in [0, 1), [submitAssessment] ends,
    has posted the same payload to the submission URL between one and four
    times and done nothing else, and has waited a whole number of
    milliseconds after each post but the last, at most 3247 ms in all. *)
Theorem submitAssessment_posts_at_most_4_times
    (API_KEY : string) (net : Network) (b : SubmissionBody) (fuel : nat)
    (w : World) :
  (forall j, 0 <= random net j /\ random net j <= below_one)%Q ->
  exists (r : Error + value) (w' : World) (k : nat) (waits : list Z),
    submitAssessment API_KEY net b fuel w = Some (r, w') /\
    (k <= 3)%nat /\
    calls w'
      = (calls w ++ repeat (submit_url, post_init API_KEY b) (S k))%list /\
    method (post_init API_KEY b) = "POST" /\
    body (post_init API_KEY b) = Some b /\
    slept w' = (slept w ++ map of_int waits)%list /\
    List.length waits = k /\
    total_ms waits <= 3247.
Proof.
  intros Hr. unfold submitAssessment. fold submit_url.
  destruct (fetchWithRetry_world net submit_url (post_init API_KEY b)
              (mkRetryOpts (Some (of_int 3)) (Some (of_int 400)))
              3 (of_int 400) (given_budget _ _) (given_base_delay _ _)
              ltac:(lia) fuel w) as (r & k & Hk & E).
  destruct (backoff_schedule net 400 w k 3 ltac:(lia) Hk ltac:(lia)
              ltac:(cbn; lia) Hr) as (Hw & Hl & Ht).
  eexists r, _, k, _. split; [exact E|].
  cbn [calls slept after_retries]. rewrite Hw.
  split; [lia|]. split; [reflexivity|]. split; [reflexivity|].
  split; [reflexivity|]. split; [reflexivity|].
  split; [exact Hl | exact Ht].
Qed.

Lemma submitAssessment_posts_at_most_4_times_witness :
  exists (r : Error + value) (w' : World) (k : nat) (waits : list Z),
    submitAssessment "key" (scripted []) (mkSubmissionBody [] [] []) 0 start
    = Some (r, w') /\
    (k <= 3)%nat /\
    calls w'
      = (calls start
         ++ repeat (submit_url, post_init "key" (mkSubmissionBody [] [] []))
              (S k))%list /\
    method (post_init "key" (mkSubmissionBody [] [] [])) = "POST" /\
    body (post_init "key" (mkSubmissionBody [] [] []))
      = Some (mkSubmissionBody [] [] []) /\
    slept w' = (slept start ++ map of_int waits)%list /\
    List.length waits = k /\
    total_ms waits <= 3247.
Proof.
  apply (submitAssessment_posts_at_most_4_times "key" (scripted [])
           (mkSubmissionBody [] [] []) 0 start).
  intros j. cbn. unfold below_one, Qle. cbn. lia.
Defined.

(** X18.  When the pagination driver fails, [main] fails with the same
    error in the same world: every request of the run was a [GET] without
    a body, so nothing was submitted. *)
Theorem main_submits_nothing_after_failed_fetch
    (API_KEY : string) (net : Network) (ToStringOther : value -> string)
    (fuel : nat) (w w1 : World) (e : Error) :
  fetchAllPatients API_KEY net fuel w = Some (inl e, w1) ->
  main API_KEY net ToStringOther fuel w = Some (inl e, w1) /\
  exists cs,
    calls w1 = (calls w ++ cs)%list /\
    Forall (fun c => method (snd c) = "GET" /\ body (snd c) = None) cs.
Proof.
  intros H. split; [unfold main; rewrite H; reflexivity|].
  apply fetchAllPatients_loop_calls in H.
  destruct H as [cs [Hc Hcs]]. exists cs. split; [exact Hc|].
  eapply Forall_impl; [|exact Hcs].
  intros c [Hinit _]. rewrite Hinit. cbn. auto.
Qed.

Lemma main_submits_nothing_after_failed_fetch_witness :
  main "key" (scripted []) (fun _ => "") 1 start
  = Some (inl (FetchFailed "down"),
          after_retries (scripted []) (patients_url 1 20) (get_init "key")
            (of_int 250) start 0 6).
Proof.
  apply (proj1 (main_submits_nothing_after_failed_fetch
                  "key" (scripted []) (fun _ => "") 1 start
                  (after_retries (scripted []) (patients_url 1 20)
                     (get_init "key") (of_int 250) start 0 6)
                  (FetchFailed "down") ltac:(vm_compute; reflexivity))).
Defined.



(** ** Further properties of the alert sets *)

Lemma classify_projections (ps : list Patient) :
  forall acc : AlertSets,
    highRisk (fold_left classify_step ps acc)
      = collect is_high_risk ps (highRisk acc) /\
    fever (fold_left classify_step ps acc)
      = collect isFeverPatient ps (fever acc) /\
    dataIssues (fold_left classify_step ps acc)
      = collect hasDataQualityIssue ps (dataIssues acc).
Proof.
  unfold collect.
  induction ps as [|p ps IH]; intros acc; cbn [fold_left]; [auto|].
  destruct (IH (classify_step acc p)) as (Hh & Hf & Hd).
  rewrite Hh, Hf, Hd. unfold classify_step, is_high_risk.
  destruct (truthy (patient_id p)); cbn; auto.
Qed.

(** X20.  The three sets do not influence one another: each is what a
    loop of its own over the records would build, adding the identifier of
    every record that has one and passes that set's test. *)
Theorem alert_sets_built_independently (patients : list Patient) :
  highRisk (classify patients) = collect is_high_risk patients [] /\
  fever (classify patients) = collect isFeverPatient patients [] /\
  dataIssues (classify patients) = collect hasDataQualityIssue patients [].
Proof. apply (classify_projections patients no_alerts). Qed.

Lemma collect_In_Str (flag : Patient -> bool) (ps : list Patient) :
  forall (acc : list value) (s : string),
    In (Str s) (collect flag ps acc) <->
    In (Str s) acc \/
    exists p, In p ps /\ patient_id p = Str s /\ s <> "" /\ flag p = true.
Proof.
  unfold collect.
  induction ps as [|p ps IH]; intros acc s; cbn [fold_left].
  - split; [tauto|]. intros [H|[p [[] _]]]. exact H.
  - rewrite IH. clear IH.
    assert (Hmove :
      (exists q, In q (p :: ps) /\ patient_id q = Str s /\ s <> "" /\
                 flag q = true) <->
      (patient_id p = Str s /\ s <> "" /\ flag p = true) \/
      (exists q, In q ps /\ patient_id q = Str s /\ s <> "" /\
                 flag q = true)).
    { split.
      - intros [q [[->|Hin] Hq]]; [left; exact Hq|].
        right. exists q. auto.
      - intros [Hp|[q [Hin Hq]]]; [exists p | exists q]; cbn; auto. }
    rewrite Hmove. clear Hmove.
    destruct (truthy (patient_id p)) eqn:Ht; cbn [andb].
    + destruct (flag p) eqn:Hf.
      * rewrite set_add_In_Str. split; [|tauto].
        intros [[H|H]|H]; auto.
        right. left. split; [exact H|]. split; [|reflexivity].
        apply truthy_Str. rewrite <- H. exact Ht.
      * split; [tauto|]. intros [H|[[_ [_ H]]|H]]; auto. discriminate.
    + split; [tauto|]. intros [H|[[Hid [Hne _]]|H]]; auto.
      rewrite Hid in Ht. apply truthy_Str in Hne. congruence.
Qed.

(** X21.  Over a run a string identifier is in [fever] exactly when some
    processed record carries it and is a fever patient, and in
    [data_quality_issues] exactly when some processed record carries it
    and has a data-quality issue: one flagged record is enough and no later
    record takes the identifier out again. *)
Theorem fever_and_quality_membership (patients : list Patient) (s : string) :
  (In (Str s) (fever (classify patients)) <->
   exists p, In p patients /\ patient_id p = Str s /\ s <> "" /\
             isFeverPatient p = true) /\
  (In (Str s) (dataIssues (classify patients)) <->
   exists p, In p patients /\ patient_id p = Str s /\ s <> "" /\
             hasDataQualityIssue p = true).
Proof.
  destruct (classify_projections patients no_alerts) as (_ & Hf & Hd).
  unfold classify. rewrite Hf, Hd, !collect_In_Str. cbn. tauto.
Qed.

Lemma fever_and_quality_membership_witness :
  In (Str "B") (fever (classify [patient_B; patient_A])) /\
  In (Str "A") (dataIssues (classify [patient_B; patient_A])).
Proof.
  split.
  - apply (proj1 (fever_and_quality_membership [patient_B; patient_A] "B")).
    exists patient_B. repeat split; try (left; reflexivity); discriminate.
  - apply (proj2 (fever_and_quality_membership [patient_B; patient_A] "A")).
    exists patient_A.
    repeat split; try (right; left; reflexivity); discriminate.
Defined.

(** *** What the payload depends on *)

Lemma set_add_is_Str (x : value) (s : list value) :
  is_Str x -> Forall is_Str s -> Forall is_Str (set_add x s).
Proof.
  intros Hx Hs. unfold set_add. destruct (set_has x s); [exact Hs|].
  apply Forall_app. split; [exact Hs|]. constructor; [exact Hx|constructor].
Qed.

Lemma collect_is_Str (flag : Patient -> bool) (ps : list Patient) :
  Forall has_string_id ps ->
  forall acc, Forall is_Str acc -> Forall is_Str (collect flag ps acc).
Proof.
  unfold collect. induction 1 as [|p ps Hp _ IH]; intros acc Hacc;
    cbn [fold_left]; [exact Hacc|].
  apply IH. destruct (truthy (patient_id p)) eqn:Ht; cbn [andb];
    [|exact Hacc].
  destruct (flag p); [|exact Hacc].
  apply set_add_is_Str; [apply Hp; exact Ht | exact Hacc].
Qed.

Lemma collect_distinct (flag : Patient -> bool) (ps : list Patient) :
  forall acc, distinct acc -> distinct (collect flag ps acc).
Proof.
  unfold collect. induction ps as [|p ps IH]; intros acc Hacc;
    cbn [fold_left]; [exact Hacc|].
  apply IH. destruct (truthy (patient_id p) && flag p); [|exact Hacc].
  apply set_add_distinct. exact Hacc.
Qed.

Lemma In_strings_of (t : string) (l : list value) :
  In (Str t) l -> In t (strings_of l).
Proof.
  intros H. unfold strings_of. apply in_flat_map.
  exists (Str t). split; [exact H | left; reflexivity].
Qed.

Lemma all_Str_map (l : list value) :
  Forall is_Str l -> l = map Str (strings_of l).
Proof.
  induction 1 as [|v l [s ->] _ IH]; cbn; [reflexivity|].
  f_equal. exact IH.
Qed.

Lemma string_ltb_irrefl (a : string) : (a <? a)%string = false.
Proof.
  unfold String.ltb.
  destruct (String.compare a a) eqn:E; try reflexivity.
  pose proof (String.compare_antisym a a) as H.
  rewrite E in H. discriminate H.
Qed.

Lemma string_ltb_asym (a b : string) :
  (a <? b)%string = true -> (b <? a)%string = false.
Proof.
  unfold String.ltb. rewrite (String.compare_antisym b a).
  destruct (String.compare a b); cbn; congruence.
Qed.

(** Two strictly ascending lists with the same members are the same list. *)
Lemma ascending_unique (l1 : list string) :
  forall l2 : list string,
    StronglySorted (fun a b => (a <? b)%string = true) l1 ->
    StronglySorted (fun a b => (a <? b)%string = true) l2 ->
    (forall x, In x l1 <-> In x l2) ->
    l1 = l2.
Proof.
  induction l1 as [|a l1 IH]; intros [|b l2] H1 H2 Hmem.
  - reflexivity.
  - destruct (proj2 (Hmem b) (or_introl eq_refl)).
  - destruct (proj1 (Hmem a) (or_introl eq_refl)).
  - apply StronglySorted_inv in H1, H2.
    destruct H1 as [S1 F1], H2 as [S2 F2].
    rewrite Forall_forall in F1, F2.
    assert (a = b).
    { destruct (proj1 (Hmem a) (or_introl eq_refl)) as [E|Ha]; [auto|].
      destruct (proj2 (Hmem b) (or_introl eq_refl)) as [E|Hb]; [auto|].
      pose proof (string_ltb_asym _ _ (F1 _ Hb)) as C.
      rewrite (F2 _ Ha) in C. discriminate. }
    subst b. f_equal. apply IH; [exact S1 | exact S2|].
    intros x. split; intros Hx.
    + destruct (proj1 (Hmem x) (or_intror Hx)) as [E|Hx']; [|exact Hx'].
      subst x. pose proof (F1 _ Hx) as C.
      rewrite string_ltb_irrefl in C. discriminate.
    + destruct (proj2 (Hmem x) (or_intror Hx)) as [E|Hx']; [|exact Hx'].
      subst x. pose proof (F2 _ Hx) as C.
      rewrite string_ltb_irrefl in C. discriminate.
Qed.

Lemma sorted_collect_permutation_invariant (T : value -> string)
    (flag : Patient -> bool) (ps qs : list Patient) :
  Permutation ps qs -> Forall has_string_id ps ->
  sort T (collect flag ps []) = sort T (collect flag qs []).
Proof.
  intros Hperm Hps.
  assert (Hqs : Forall has_string_id qs)
    by (eapply Permutation_Forall; eassumption).
  assert (Hfin : forall rs, Forall has_string_id rs ->
            Forall is_Str (sort T (collect flag rs [])) /\
            StronglySorted (fun a b => (a <? b)%string = true)
              (strings_of (sort T (collect flag rs [])))).
  { intros rs Hrs. split.
    - apply sort_Forall. apply collect_is_Str; [exact Hrs | constructor].
    - apply (sort_finalizes T). apply collect_distinct. constructor. }
  destruct (Hfin ps Hps) as [A1 S1]. destruct (Hfin qs Hqs) as [A2 S2].
  rewrite (all_Str_map _ A1), (all_Str_map _ A2). f_equal.
  apply ascending_unique; [exact S1 | exact S2|].
  assert (Hmem : forall rs x,
            In x (strings_of (sort T (collect flag rs []))) <->
            exists p, In p rs /\ patient_id p = Str x /\ x <> "" /\
                      flag p = true).
  { intros rs x. split.
    - intros H. apply strings_of_In in H.
      apply (Permutation_in _ (Permutation_sym (sort_Permutation T _))) in H.
      apply collect_In_Str in H. destruct H as [[]|H]. exact H.
    - intros H. apply In_strings_of.
      apply (Permutation_in _ (sort_Permutation T _)).
      apply collect_In_Str. right. exact H. }
  intros x. rewrite !Hmem. split; intros [p [Hin Hp]]; exists p;
    (split; [|exact Hp]).
  - eapply Permutation_in; eassumption.
  - eapply Permutation_in; [apply Permutation_sym|]; eassumption.
Qed.

(** X22.  When every identifier is a string, the submitted payload does
    not depend on the order in which the records were fetched. *)
Theorem submission_ignores_record_order (ToStringOther : value -> string)
    (patients patients' : list Patient) :
  Permutation patients patients' ->
  Forall has_string_id patients ->
  submission ToStringOther (classify patients)
  = submission ToStringOther (classify patients').
Proof.
  intros Hperm Hids. unfold submission.
  destruct (classify_projections patients no_alerts) as (Hh & Hf & Hd).
  destruct (classify_projections patients' no_alerts) as (Hh' & Hf' & Hd').
  unfold classify. rewrite Hh, Hf, Hd, Hh', Hf', Hd'. cbn [no_alerts highRisk fever dataIssues].
  f_equal; apply sorted_collect_permutation_invariant; assumption.
Qed.

Lemma submission_ignores_record_order_witness :
  submission (fun _ => "") (classify [patient_B; patient_A])
  = submission (fun _ => "") (classify [patient_A; patient_B]).
Proof.
  apply submission_ignores_record_order.
  - apply perm_swap.
  - repeat constructor; intros _; eexists; reflexivity.
Defined.

(** X23.  A record that comes a second time, on whatever page, changes
    nothing when its identifier is a string: the sets after it are the
    sets before it. *)
Theorem repeated_record_changes_nothing (patients : list Patient)
    (p : Patient) (s : string) :
  In p patients -> patient_id p = Str s ->
  classify (patients ++ [p]) = classify patients.
Proof.
  intros Hin Hid. unfold classify. rewrite fold_left_app. cbn [fold_left].
  fold (classify patients).
  destruct (classify_projections patients no_alerts) as (Hh & Hf & Hd).
  fold (classify patients) in Hh, Hf, Hd. cbn [no_alerts highRisk fever dataIssues] in Hh, Hf, Hd.
  unfold classify_step.
  destruct (truthy (patient_id p)) eqn:Ht; cbn [negb]; [|reflexivity].
  assert (Hne : s <> "") by (apply truthy_Str; rewrite <- Hid; exact Ht).
  assert (Hkeep : forall flag set,
            set = collect flag patients [] ->
            (if flag p then set_add (patient_id p) set else set) = set).
  { intros flag set ->. destruct (flag p) eqn:Hflag; [|reflexivity].
    unfold set_add.
    replace (set_has (patient_id p) (collect flag patients [])) with true;
      [reflexivity|].
    symmetry. rewrite Hid. apply set_has_Str. apply collect_In_Str.
    right. exists p. auto. }
  rewrite (Hkeep hasDataQualityIssue _ Hd), (Hkeep isFeverPatient _ Hf).
  change (4 <=? totalRiskScore p) with (is_high_risk p).
  rewrite (Hkeep is_high_risk _ Hh).
  destruct (classify patients). reflexivity.
Qed.

Lemma repeated_record_changes_nothing_witness :
  classify ([patient_B; patient_A] ++ [patient_B])
  = classify [patient_B; patient_A].
Proof.
  apply (repeated_record_changes_nothing [patient_B; patient_A]
           patient_B "B").
  - left. reflexivity.
  - reflexivity.
Defined.
